(** * Block partitioning, scanning, rank sharding and path lookup

    A shallow embedding of [megatron/core/models/retro/data/utils.py]
    ([get_blocks], [get_blocks_by_rank], [get_sampled_blocks_by_rank],
    [BlockPathMap] and the helpers for the paths and the blend of a
    project) together with the properties of the block bookkeeping that the
    specification states about it, and further properties of the same code.

    Python integers are [Z] ([//] is [Z.div], which rounds towards minus
    infinity exactly as Python does), Python strings are [string], a [dict]
    keyed by integers is a [gmap Z], the directory is a [gmap] from paths to
    files, and an exception is the [Raise] branch of [result]. *)

From Stdlib Require Import ZArith QArith Qround Ascii String.
From Stdlib Require Import DecimalString DecimalPos DecimalZ.
From stdpp Require Import base tactics option list sorting gmap strings.

Local Open Scope Z_scope.

(** ** Exceptions *)

Inductive exn :=
  | ValueError
  | OverflowError
  | TypeError
  | AssertionError
  | KeyError
  | ZeroDivisionError
  | OSError
  | FileNotFoundError.

Inductive result (A : Type) :=
  | Ok (a : A)
  | Raise (e : exn).
Arguments Ok {A} a.
Arguments Raise {A} e.

#[global] Instance result_ret : MRet result := λ A a, Ok a.
#[global] Instance result_bind : MBind result := λ A B f m,
  match m with
  | Ok a => f a
  | Raise e => Raise e
  end.

#[global] Instance exn_eq_dec : EqDecision exn.
Proof. solve_decision. Defined.

(** ** Python builtins on integers and lists *)

Module Py.

(** [len(range(start, stop, step))], as CPython computes it. *)
Definition range_length (start stop step : Z) : Z :=
  if 0 <? step then
    if start <? stop then (stop - start - 1) / step + 1 else 0
  else
    if stop <? start then (start - stop - 1) / (- step) + 1 else 0.

(** [list(range(start, stop, step))]; a zero step is a [ValueError]. *)
Definition range (start stop step : Z) : result (list Z) :=
  if step =? 0 then Raise ValueError
  else Ok ((λ i, start + i * step) <$> seqZ 0 (range_length start stop step)).

(** Slice bounds after [PySlice_AdjustIndices], for a list of length [len]. *)
Definition adjust (len step i : Z) : Z :=
  if i <? 0 then
    (if i + len <? 0 then (if step <? 0 then -1 else 0) else i + len)
  else if len <=? i then (if step <? 0 then len - 1 else len)
  else i.

(** [l[start:stop:step]]; a zero step is a [ValueError]. *)
Definition slice {A} (l : list A) (start stop step : Z) : result (list A) :=
  if step =? 0 then Raise ValueError
  else
    let len := Z.of_nat (length l) in
    let start' := adjust len step start in
    let stop' := adjust len step stop in
    Ok (omap (λ i, l !! Z.to_nat (start' + i * step))
             (seqZ 0 (range_length start' stop' step))).

(** [[x] * k]: empty when [k] is not positive. *)
Definition repeat {A} (x : A) (k : Z) : list A := replicate (Z.to_nat k) x.

(** [str(i)] for an integer: its decimal numeral, with ["-"] when
    negative. *)
Definition str (i : Z) : string := NilZero.string_of_int (Z.to_int i).

(** [int(s)] on a string of decimal digits (leading zeros allowed). The
    signed, blank-padded and underscore-grouped numerals that Python also
    accepts are a [ValueError] here; no block file name has them. *)
Definition int (s : string) : result Z :=
  match NilZero.uint_of_string s with
  | Some d => Ok (Z.of_uint d)
  | None => Raise ValueError
  end.

Fixpoint zeros (k : nat) : string :=
  match k with
  | O => EmptyString
  | S k => String "0" (zeros k)
  end.

(** [s.zfill(width)]: zeros go after a leading sign; never truncates. *)
Definition zfill (s : string) (width : Z) : string :=
  let fill := width - Z.of_nat (String.length s) in
  if fill <=? 0 then s
  else
    match s with
    | String c rest =>
        if (Ascii.eqb c "+" || Ascii.eqb c "-")%bool
        then String c (zeros (Z.to_nat fill) +:+ rest)
        else zeros (Z.to_nat fill) +:+ s
    | EmptyString => zeros (Z.to_nat fill)
    end.

(** [s.rfind(c)] for a one-character [c]: the last position, or -1. *)
Fixpoint rfind (c : ascii) (s : string) : Z :=
  match s with
  | EmptyString => -1
  | String a r =>
      let k := rfind c r in
      if 0 <=? k then k + 1 else if Ascii.eqb a c then 0 else -1
  end.

Fixpoint drop (k : nat) (s : string) : string :=
  match k, s with
  | O, _ => s
  | S k, String _ r => drop k r
  | S _, EmptyString => EmptyString
  end.

Fixpoint take (k : nat) (s : string) : string :=
  match k, s with
  | O, _ => EmptyString
  | S k, String a r => String a (take k r)
  | S _, EmptyString => EmptyString
  end.

(** [s[i:]] and [s[:i]] for [0 <= i]. *)
Definition from (i : Z) (s : string) : string := drop (Z.to_nat i) s.
Definition upto (i : Z) (s : string) : string := take (Z.to_nat i) s.

(** [s.split(c)] for a one-character separator. *)
Fixpoint split (c : ascii) (s : string) : list string :=
  match s with
  | EmptyString => [EmptyString]
  | String a r =>
      if Ascii.eqb a c then EmptyString :: split c r
      else
        match split c r with
        | h :: t => String a h :: t
        | [] => [String a EmptyString]
        end
  end.

Definition startswith (c : ascii) (s : string) : bool :=
  match s with
  | String a _ => Ascii.eqb a c
  | EmptyString => false
  end.

Fixpoint endswith (c : ascii) (s : string) : bool :=
  match s with
  | EmptyString => false
  | String a EmptyString => Ascii.eqb a c
  | String _ r => endswith c r
  end.

(** [a // b] and [a % b] on integers; both raise on a zero divisor. *)
Definition floordiv (a b : Z) : result Z :=
  if b =? 0 then Raise ZeroDivisionError else Ok (a / b).

Definition modulo (a b : Z) : result Z :=
  if b =? 0 then Raise ZeroDivisionError else Ok (a `mod` b).

(** [l[i]] and [l[i] = x] on a list: an index below zero counts from the
    end, and [None] stands for the [IndexError] of an index out of range. *)
Definition getitem {A} (l : list A) (i : Z) : option A :=
  let j := if i <? 0 then i + Z.of_nat (length l) else i in
  if j <? 0 then None else l !! Z.to_nat j.

Definition setitem {A} (l : list A) (i : Z) (x : A) : option (list A) :=
  let j := if i <? 0 then i + Z.of_nat (length l) else i in
  if (0 <=? j) && (j <? Z.of_nat (length l)) then Some (<[Z.to_nat j := x]> l)
  else None.

End Py.

(** ** [os.path] (posixpath) *)

Module os_path.

(** [os.path.join(a, b)]. *)
Definition join (a b : string) : string :=
  if Py.startswith "/" b then b
  else if (String.eqb a EmptyString || Py.endswith "/" a)%bool then a +:+ b
  else a +:+ "/" +:+ b.

(** [os.path.basename(p)]. *)
Definition basename (p : string) : string :=
  Py.from (Py.rfind "/" p + 1) p.

Fixpoint all_dots (s : string) : bool :=
  match s with
  | EmptyString => true
  | String a r => (Ascii.eqb a "." && all_dots r)%bool
  end.

(** [os.path.splitext(p)] ([genericpath._splitext]): the extension starts
    at the last dot, unless that dot lies before the last separator or
    has only dots between the separator and itself. *)
Definition splitext (p : string) : string * string :=
  let sepIndex := Py.rfind "/" p in
  let dotIndex := Py.rfind "." p in
  if (sepIndex <? dotIndex) &&
     negb (all_dots (Py.from (sepIndex + 1) (Py.upto dotIndex p)))
  then (Py.upto dotIndex p, Py.from dotIndex p)
  else (p, EmptyString).

End os_path.

(** ** Block descriptors (lines 101-104 of utils.py) *)

Definition block_ranges (n_samples block_size : Z) : result (list (Z * Z)) :=
  block_start_idxs ← Py.range 0 n_samples block_size;
  let block_end_idxs := (λ i, Z.min n_samples (i + block_size)) <$> block_start_idxs in
  mret (zip block_start_idxs block_end_idxs).

(** ** Block files: names and descriptors (lines 106-115 of utils.py) *)

(** A block descriptor, the dict [{"range": ..., "path": ...}]. *)
Record block := Block { range : Z * Z; path : string }.

#[global] Instance block_eq_dec : EqDecision block.
Proof. solve_decision. Defined.

(** The least [k] with [n <= 10^k], that is [ceil(log10 n)] for [1 <= n]. *)
Fixpoint ceil_log10_from (fuel : nat) (k p n : Z) : Z :=
  match fuel with
  | O => k
  | S fuel => if n <=? p then k else ceil_log10_from fuel (k + 1) (10 * p) n
  end.

Definition ceil_log10 (n : Z) : Z :=
  ceil_log10_from (S (Z.to_nat (Z.log2 n))) 0 1 n.

(** [int(np.ceil(np.log(n_samples) / np.log(10)) + 1)]. [np.log] works in
    binary64; here the quotient of logarithms is taken at its real value,
    which the rounded quotient can miss next to a power of ten from about
    [10^15] on. [np.log(0)] is minus infinity and the logarithm of a
    negative number is NaN; [int] refuses both. Nothing but the width of
    the numerals depends on this number. *)
Definition n_digits (n_samples : Z) : result Z :=
  if n_samples =? 0 then Raise OverflowError
  else if n_samples <? 0 then Raise ValueError
  else Ok (ceil_log10 n_samples + 1).

(** ["%s-%s.hdf5" % tuple([str(i).zfill(n_digits) for i in r])]. *)
Definition block_name (n_digits : Z) (r : Z * Z) : string :=
  Py.zfill (Py.str r.1) n_digits +:+ "-" +:+
  Py.zfill (Py.str r.2) n_digits +:+ ".hdf5".

Definition block_of (project_dir : string) (n_digits : Z) (r : Z * Z) : block :=
  {| range := r; path := os_path.join project_dir (block_name n_digits r) |}.

(** [all_blocks], existing and missing alike. *)
Definition all_blocks (project_dir : string) (n_samples block_size : Z)
  : result (list block) :=
  block_ranges ← block_ranges n_samples block_size;
  n_digits ← n_digits n_samples;
  mret (block_of project_dir n_digits <$> (block_ranges : list (Z * Z))).

(** ** The directory and the scan (lines 117-152 of utils.py) *)

Module Blocks.
Record t := { existing : list block; missing : list block }.
End Blocks.

Section Scanner.

(** What an opened block file holds is opaque here. *)
Context {h5 : Type}.

(** A file is either readable as a block file or not. *)
Inductive file :=
  | Unreadable
  | Hdf5 (f : h5).

(** The directory tree, as a map from paths to files. *)
Abbreviation filesystem := (gmap string file).

(** [os.path.exists(path)] *)
Definition os_path_exists (fs : filesystem) (path : string) : Prop :=
  is_Some (fs !! path).

(** [h5py.File(path, "r")] *)
Definition h5py_File (fs : filesystem) (path : string) : result h5 :=
  match fs !! path with
  | Some (Hdf5 f) => Ok f
  | Some Unreadable => Raise OSError
  | None => Raise FileNotFoundError
  end.

(** [os.remove(path)] *)
Definition os_remove (fs : filesystem) (path : string) : result filesystem :=
  match fs !! path with
  | Some _ => Ok (delete path fs)
  | None => Raise FileNotFoundError
  end.

(** One turn of the validation loop, lines 128-141. *)
Definition validate_block (all_block_path_set : gset string)
    (validate : h5 → result ()) (fs : filesystem) (path : string)
  : result filesystem :=
  if decide (path ∈ all_block_path_set) then
    match h5py_File fs path with
    | Raise _ => os_remove fs path
    | Ok f =>
        match validate f with
        | Raise _ => os_remove fs path
        | Ok _ => Ok fs
        end
    end
  else Raise AssertionError.

Fixpoint validate_blocks (all_block_path_set : gset string)
    (validate : h5 → result ()) (fs : filesystem) (paths : list string)
  : result filesystem :=
  match paths with
  | [] => Ok fs
  | path :: paths =>
      fs ← validate_block all_block_path_set validate fs path;
      validate_blocks all_block_path_set validate fs paths
  end.

(** The final collection, lines 147-150, on the directory as it is then. *)
Definition collect (fs : filesystem) (all_blocks : list block) : Blocks.t :=
  {| Blocks.existing := filter (λ b, os_path_exists fs (path b)) all_blocks;
     Blocks.missing := filter (λ b, ¬ os_path_exists fs (path b)) all_blocks |}.

(** [get_blocks] on the process of rank [rank], started on directory [fs].
    Rank 0 cleans the directory; the barrier is where the other ranks wait
    for it, so for them [fs] is the directory as rank 0 has left it. The
    directory comes back with the result. *)
Definition get_blocks (rank : Z) (fs : filesystem) (project_dir : string)
    (n_samples block_size : Z) (validate : option (h5 → result ()))
  : result (filesystem * Blocks.t) :=
  all_blocks ← all_blocks project_dir n_samples block_size;
  let all_block_path_set : gset string := list_to_set (path <$> all_blocks) in
  let validate := default (λ _, Ok ()) validate in
  fs ← (if rank =? 0 then
          let existing_block_paths :=
            path <$> filter (λ b, os_path_exists fs (path b)) all_blocks in
          validate_blocks all_block_path_set validate fs existing_block_paths
        else Ok fs);
  mret (fs, collect fs all_blocks).

End Scanner.

Arguments file : clear implicits.

(** ** Sharding over the ranks (lines 155-199 of utils.py) *)

Module RankBlocks.
Record t := {
  n_existing_world : Z;
  n_missing_world : Z;
  existing : list (option block);
  missing : list (option block);
}.
End RankBlocks.

(** [l[rank:len(l):world_size]] *)
Definition rank_slice {A} (l : list A) (rank world_size : Z) : result (list A) :=
  Py.slice l rank (Z.of_nat (length l)) world_size.

(** [get_world_max]: the all-reduce with [MAX] of the value that every
    rank [0 .. world_size - 1] contributes; [n r] is the value of rank [r].
    The values are lengths, so 0 is neutral. *)
Definition get_world_max (n : Z → result Z) (world_size : Z) : result Z :=
  ns ← mapM n (seqZ 0 world_size);
  mret (foldr Z.max 0 ns).

(** Lines 175-189 for one of the two lists: the slice of this rank, padded
    with [None] to the longest slice of any rank. *)
Definition rank_blocks (l : list block) (rank world_size : Z)
  : result (list (option block)) :=
  rank_blocks ← rank_slice l rank world_size;
  max_n ← get_world_max
    (λ r, l_r ← rank_slice l r world_size; mret (Z.of_nat (length (l_r : list block))))
    world_size;
  mret ((Some <$> (rank_blocks : list block))
        ++ Py.repeat None (max_n - Z.of_nat (length rank_blocks))).

(** [get_blocks_by_rank], after its call of [get_blocks] has returned
    [blocks]. *)
Definition get_blocks_by_rank (blocks : Blocks.t)
    (data_parallel_rank data_parallel_world_size : Z) : result RankBlocks.t :=
  rank_existing_blocks ←
    rank_blocks (Blocks.existing blocks) data_parallel_rank data_parallel_world_size;
  rank_missing_blocks ←
    rank_blocks (Blocks.missing blocks) data_parallel_rank data_parallel_world_size;
  mret {| RankBlocks.n_existing_world := Z.of_nat (length (Blocks.existing blocks));
          RankBlocks.n_missing_world := Z.of_nat (length (Blocks.missing blocks));
          RankBlocks.existing := rank_existing_blocks;
          RankBlocks.missing := rank_missing_blocks |}.

(** ** Sampling (lines 202-235 of utils.py) *)

Section Sampler.

(** [np.random.seed(None)] draws a fresh seed from the operating system
    and [np.random.shuffle] permutes the list in a way that depends on it;
    nothing more is known of either. *)
Variable shuffle : N → list (option block) → list (option block).

(** [int(np.ceil(fraction * len(_blocks)))]. [fraction] is a binary64
    number, so a rational; the product is taken at its exact value, where
    the code rounds it to binary64 before [np.ceil]. *)
Definition n_blocks_sample (fraction : Q) (len : nat) : Z :=
  Qceiling (fraction * inject_Z (Z.of_nat len)).

(** [sample_blocks]; [fraction] defaults to [None], which cannot be
    multiplied. [seed] is what the operating system hands out. *)
Definition sample_blocks (fraction : option Q) (seed : N)
    (_blocks : list (option block)) : result (list (option block)) :=
  match fraction with
  | None => Raise TypeError
  | Some fraction =>
      let n_blocks_sample := n_blocks_sample fraction (length _blocks) in
      let sampled_blocks := filter (λ b, b ≠ None) _blocks in
      let sampled_blocks := shuffle seed sampled_blocks in
      sampled_blocks ← Py.slice sampled_blocks 0 n_blocks_sample 1;
      mret ((sampled_blocks : list (option block))
            ++ Py.repeat None (n_blocks_sample - Z.of_nat (length sampled_blocks)))
  end.

(** [get_sampled_blocks_by_rank], after its call of [get_blocks_by_rank]
    has returned [blocks]. *)
Definition get_sampled_blocks_by_rank (blocks : RankBlocks.t)
    (fraction : option Q) (seed1 seed2 : N) : result RankBlocks.t :=
  existing ← sample_blocks fraction seed1 (RankBlocks.existing blocks);
  missing ← sample_blocks fraction seed2 (RankBlocks.missing blocks);
  mret {| RankBlocks.n_existing_world := RankBlocks.n_existing_world blocks;
          RankBlocks.n_missing_world := RankBlocks.n_missing_world blocks;
          RankBlocks.existing := existing;
          RankBlocks.missing := missing |}.

End Sampler.

(** ** [BlockPathMap] (lines 238-272 of utils.py) *)

Module BlockPathMap.

Record t := {
  max_idx : Z;
  block_path_map : gmap Z string;
  block_size : Z;
}.

(** Lines 259-260: the two indices in the name of a block file. *)
Definition parse (block_path : string) : result (Z * Z) :=
  let name := (os_path.splitext (os_path.basename block_path)).1 in
  idxs ← mapM Py.int (Py.split "-" name);
  match idxs : list Z with
  | [start_idx; end_idx] => Ok (start_idx, end_idx)
  | _ => Raise ValueError
  end.

(** The loop of [__init__], from the map and maximum so far. *)
Fixpoint scan (block_paths : list string) (max_idx : Z) (m : gmap Z string)
  : result (Z * gmap Z string) :=
  match block_paths with
  | [] => Ok (max_idx, m)
  | block_path :: block_paths =>
      '(start_idx, end_idx) ← parse block_path;
      scan block_paths (Z.max max_idx end_idx) (<[start_idx := block_path]> m)
  end.

(** [BlockPathMap(block_paths, block_size)] *)
Definition init (block_paths : list string) (block_size : Z) : result t :=
  '(max_idx, block_path_map) ← scan block_paths 0 ∅;
  mret {| max_idx := max_idx; block_path_map := block_path_map;
          block_size := block_size |}.

(** [self[idx]]: the value or the exception, and the object afterwards. *)
Definition getitem (self : t) (idx : Z) : result string * t :=
  if block_size self =? 0 then (Raise ZeroDivisionError, self)
  else
    let block_start_idx := block_size self * (idx / block_size self) in
    match block_path_map self !! block_start_idx with
    | Some block_path => (Ok block_path, self)
    | None => (Raise KeyError, self)
    end.

End BlockPathMap.

(** [sorted(paths)] on strings. *)
Definition sorted (paths : list string) : list string := merge_sort String.le paths.

(** [BlockPathMap.from_dir(dir, block_size, ext)], given what
    [os.path.isdir(dir)] and [glob.glob(dir + "/*." + ext)] return: [isdir]
    and [listing], the latter in whatever order the directory is read. *)
Definition from_dir (isdir : bool) (listing : list string) (block_size : Z)
  : result BlockPathMap.t :=
  if isdir then BlockPathMap.init (sorted listing) block_size
  else Raise AssertionError.

(** [BlockPathMap.__str__]: ["%d paths" % len(self.block_path_map)] *)
Definition __str__ (self : BlockPathMap.t) : string :=
  Py.str (Z.of_nat (size (BlockPathMap.block_path_map self))) +:+ " paths".

(** ** Paths and counts of a project (lines 32-63 of utils.py) *)

Definition get_config_path (project_dir : string) : string :=
  os_path.join project_dir "config.json".

(** [get_num_chunks_per_sample]: the [%] of the assertion is what meets a
    zero [chunk_length] first. *)
Definition get_num_chunks_per_sample (sample_length chunk_length : Z) : result Z :=
  r ← Py.modulo sample_length chunk_length;
  if r =? 0 then Py.floordiv sample_length chunk_length
  else Raise AssertionError.

Definition get_gpt_data_dir (project_dir : string) : string :=
  os_path.join project_dir "data".

Section Config.

(** What the fields that are only handed on hold is of no concern here. *)
Context {seed_t length_t split_t cache_t built_t : Type}.

(** The fields of [RetroPreprocessingConfig] that are read. *)
Record RetroPreprocessingConfig := {
  retro_project_dir : string;
  retro_gpt_data_path : list string;
  retro_gpt_seed : seed_t;
  retro_gpt_seq_length : length_t;
  retro_gpt_split : split_t;
  retro_gpt_data_cache_path : cache_t;
}.

(** The arguments that [GPTDatasetConfig] is called with. *)
Record GPTDatasetConfig := {
  is_built_on_rank : built_t;
  random_seed : seed_t;
  sequence_length : length_t;
  blend : list string;
  split : split_t;
  path_to_cache : cache_t;
  return_document_ids : bool;
}.

(** The loop of lines 53-54 over the indices [idxs]; [None] when a
    subscript is out of range. *)
Fixpoint join_blend (data_dir : string) (idxs : list Z) (blend : list string)
  : option (list string) :=
  match idxs with
  | [] => Some blend
  | i :: idxs =>
      x ← Py.getitem blend i;
      blend ← Py.setitem blend i (os_path.join data_dir x);
      join_blend data_dir idxs blend
  end.

(** [core_gpt_dataset_config_from_retro_preprocessing_config], up to the
    call of [GPTDatasetConfig]; [None] when the loop raises. *)
Definition core_gpt_dataset_config_from_retro_preprocessing_config
    (config : RetroPreprocessingConfig) (is_dataset_built_on_rank : built_t)
  : option GPTDatasetConfig :=
  let data_dir := get_gpt_data_dir (retro_project_dir config) in
  let blend := retro_gpt_data_path config in
  match Py.range (Z.of_nat (length blend) - 1) (-1) (-2) with
  | Raise _ => None
  | Ok idxs =>
      blend ← join_blend data_dir idxs blend;
      Some {| is_built_on_rank := is_dataset_built_on_rank;
              random_seed := retro_gpt_seed config;
              sequence_length := retro_gpt_seq_length config;
              blend := blend;
              split := retro_gpt_split config;
              path_to_cache := retro_gpt_data_cache_path config;
              return_document_ids := true |}
  end.

End Config.

(** * The vocabulary of the statements *)

(** The number of blocks, [ceil(n_samples / block_size)]. *)
Definition n_blocks (n_samples block_size : Z) : Z :=
  (n_samples + block_size - 1) / block_size.

(** What it means for an ordered list of ranges to tile [[0, n)] with
    blocks of size [s]. *)
Record tiles (n s : Z) (rs : list (Z * Z)) : Prop := {
  tiles_first : ∃ e, rs !! 0%nat = Some (0, e);
  tiles_last : ∃ b, last rs = Some (b, n);
  tiles_contiguous : ∀ (i : nat) a b,
    rs !! i = Some a → rs !! S i = Some b → a.2 = b.1;
  tiles_bounds : ∀ a, a ∈ rs → 0 ≤ a.1 ∧ a.1 < a.2 ∧ a.2 ≤ n ∧ a.2 - a.1 ≤ s;
  tiles_full : ∀ (i : nat) a,
    rs !! i = Some a → (S i < length rs)%nat → a.2 - a.1 = s;
  tiles_union : ∀ x, 0 ≤ x < n ↔ ∃ a, a ∈ rs ∧ a.1 ≤ x < a.2;
  tiles_disjoint : ∀ x (i j : nat) a b,
    rs !! i = Some a → rs !! j = Some b →
    a.1 ≤ x < a.2 → b.1 ≤ x < b.2 → i = j;
}.

Fixpoint all_chars (P : ascii → bool) (s : string) : bool :=
  match s with
  | EmptyString => true
  | String a r => P a && all_chars P r
  end.

Definition is_digit (a : ascii) : bool :=
  bool_decide (is_Some (uint_of_char a (Some Decimal.Nil))).

(** [s] has no occurrence of [c]. *)
Definition lacks (c : ascii) (s : string) : bool :=
  all_chars (λ a, negb (Ascii.eqb a c)) s.



(** The decimal numeral of [i] with zeros in front up to [width] characters. *)
Definition padded (width i : Z) : string :=
  Py.zeros (Z.to_nat (width - Z.of_nat (String.length (Py.str i)))) +:+ Py.str i.


(** Does [r] raise [e]? *)
Definition raises {A} (e : exn) (r : result A) : bool :=
  match r with
  | Raise e' => bool_decide (e' = e)
  | Ok _ => false
  end.

(** The entries of a rank that are blocks, in order. *)
Definition non_markers (l : list (option block)) : list block := omap id l.

(** What rank [r] of [W] holds of [l]: entry [i] is [l[r + i*W]], and the
    marker where that is past the end, up to [ceil(len(l) / W)] entries. *)
Definition shard_of (l : list block) (r W : Z) : list (option block) :=
  (λ i, l !! Z.to_nat (r + i * W)) <$> seqZ 0 (n_blocks (Z.of_nat (length l)) W).

(** What it means for the ranks [0 .. W-1] to share out [l]. *)
Record sharded (W : Z) (l : list block) (shard : Z → list (option block)) : Prop := {
  sharded_slice : ∀ r, 0 ≤ r < W →
    ∃ sl, rank_slice l r W = Ok sl ∧ non_markers (shard r) = sl ∧
          shard r = (Some <$> sl) ++ replicate (length (shard r) - length sl) None;
  sharded_entries : ∀ r, 0 ≤ r < W → shard r = shard_of l r W;
  sharded_length : ∀ r, 0 ≤ r < W →
    Z.of_nat (length (shard r)) = n_blocks (Z.of_nat (length l)) W;
  sharded_union : (seqZ 0 W ≫= λ r, non_markers (shard r)) ≡ₚ l;
  sharded_disjoint : NoDup l → ∀ r1 r2 b, 0 ≤ r1 < W → 0 ≤ r2 < W →
    Some b ∈ shard r1 → Some b ∈ shard r2 → r1 = r2;
}.

(** The number of entries of [l[r:len(l):W]]. *)
Definition slice_count (n r W : Z) : Z :=
  if r <? n then (n - r - 1) / W + 1 else 0.


(** Three blocks, the first on disk, the last unreadable. *)
Definition some_dir : gmap string (file ()) :=
  {[ "proj/0000-0100.hdf5"%string := Hdf5 ();
     "proj/0200-0250.hdf5"%string := Unreadable ]}.

(** A directory with a file that is no block file at all. *)
Definition stray_dir : gmap string (file ()) :=
  {[ "proj/0000-0100.hdf5"%string := Hdf5 ();
     "proj/stray.txt"%string := Unreadable ]}.

(** The scenario of the specification: 250 samples in blocks of 100, the
    first and last block on disk, two ranks. *)
Definition scenario : Blocks.t :=
  {| Blocks.existing := [Block (0, 100) "proj/0000-0100.hdf5";
                         Block (200, 250) "proj/0200-0250.hdf5"];
     Blocks.missing := [Block (100, 200) "proj/0100-0200.hdf5"] |}.

(** Five blocks on disk. *)
Definition five_existing : Blocks.t :=
  {| Blocks.existing := [Block (0, 100) "b0"; Block (100, 200) "b1";
                         Block (200, 300) "b2"; Block (300, 400) "b3";
                         Block (400, 450) "b4"];
     Blocks.missing := [] |}.

(** Does the cleanup keep this block file? It does when the file opens and
    passes [validate]. *)
Definition kept {h5} (validate : h5 → result ()) (x : file h5) : bool :=
  match x with
  | Hdf5 f => match validate f with Ok _ => true | Raise _ => false end
  | Unreadable => false
  end.

(** The directory [fs] without the files at [paths] that the cleanup does
    not keep. *)
Definition cleaned {h5} (validate : h5 → result ()) (paths : list string)
    (fs : gmap string (file h5)) : gmap string (file h5) :=
  filter (λ px, px.1 ∈ paths → kept validate px.2 = true) fs.

(** The first index in the name of a block file, when the name has two. *)
Definition start_of (block_path : string) : option Z :=
  match BlockPathMap.parse block_path with
  | Ok r => Some r.1
  | Raise _ => None
  end.

(** The number of markers in the list of a rank. *)
Definition n_markers (l : list (option block)) : Z :=
  Z.of_nat (length l) - Z.of_nat (length (non_markers l)).

(** * Properties *)

Example str_examples :
  Py.str 0 = "0"%string ∧ Py.str 250 = "250"%string ∧ Py.str (-7) = "-7"%string ∧
  Py.zfill (Py.str 42) 5 = "00042"%string ∧ Py.zfill "-42" 5 = "-0042"%string ∧
  Py.zfill (Py.str 123456) 3 = "123456"%string ∧
  Py.int "0042" = Ok 42 ∧ Py.int "" = Raise ValueError ∧
  Py.split "-" "000-100" = ["000"; "100"]%string ∧
  Py.split "-" "a--b" = ["a"; ""; "b"]%string.
Proof. repeat split; reflexivity. Qed.

Example range_slice_examples :
  Py.range 0 250 100 = Ok [0; 100; 200] ∧
  Py.range 0 (-5) (-2) = Ok [0; -2; -4] ∧
  Py.range 0 5 0 = Raise ValueError ∧
  Py.slice [1; 2; 3; 4; 5; 6; 7] 1 7 3 = Ok [2; 5] ∧
  Py.slice [1; 2; 3; 4; 5; 6; 7] 0 (-2) 1 = Ok [1; 2; 3; 4; 5] ∧
  Py.slice [1; 2; 3; 4; 5; 6; 7] 9 7 3 = Ok [] ∧
  Py.repeat 0 (-2) = [].
Proof. repeat split; reflexivity. Qed.

Example path_examples :
  os_path.join "proj" "000-100.hdf5" = "proj/000-100.hdf5"%string ∧
  os_path.join "proj/" "000-100.hdf5" = "proj/000-100.hdf5"%string ∧
  os_path.join "" "000-100.hdf5" = "000-100.hdf5"%string ∧
  os_path.basename "a.d/proj/000-100.hdf5" = "000-100.hdf5"%string ∧
  os_path.splitext "000-100.hdf5" = ("000-100", ".hdf5")%string ∧
  os_path.splitext "a.d/name" = ("a.d/name", "")%string ∧
  os_path.splitext "..hidden" = ("..hidden", "")%string.
Proof. repeat split; reflexivity. Qed.

(** ** Properties of the partition *)

Section Partition.

Lemma range_length_pos n s :
  0 < n → 0 < s → Py.range_length 0 n s = n_blocks n s.
Proof.
  intros Hn Hs. unfold Py.range_length, n_blocks.
  destruct (Z.ltb_spec 0 s); [|lia].
  destruct (Z.ltb_spec 0 n); [|lia].
  replace (n + s - 1) with ((n - 0 - 1) + 1 * s) by lia.
  rewrite Z.div_add by lia. lia.
Qed.

Lemma n_blocks_bounds n s :
  0 < n → 0 < s → 0 < n_blocks n s ∧ (n_blocks n s - 1) * s < n ≤ n_blocks n s * s.
Proof.
  intros Hn Hs. unfold n_blocks.
  pose proof (Z.div_mod (n + s - 1) s ltac:(lia)) as Hdm.
  pose proof (Z.mod_pos_bound (n + s - 1) s Hs) as Hm.
  nia.
Qed.

Lemma block_ranges_ok n s :
  0 < n → 0 < s →
  block_ranges n s =
    Ok ((λ i, (i * s, Z.min n ((i + 1) * s))) <$> seqZ 0 (n_blocks n s)).
Proof.
  intros Hn Hs. unfold block_ranges, Py.range.
  destruct (Z.eqb_spec s 0); [lia|]. simpl.
  rewrite range_length_pos by done. f_equal.
  generalize (seqZ 0 (n_blocks n s)). intros l.
  induction l as [|i l IH]; simpl; [done|].
  f_equal; [|done]. f_equal. f_equal. lia.
Qed.

Lemma block_ranges_lookup n s rs (i : nat) r :
  0 < n → 0 < s → block_ranges n s = Ok rs →
  rs !! i = Some r ↔
    Z.of_nat i < n_blocks n s ∧
    r = (Z.of_nat i * s, Z.min n ((Z.of_nat i + 1) * s)).
Proof.
  intros Hn Hs. rewrite block_ranges_ok by done. intros [= <-].
  rewrite list_lookup_fmap. split.
  - destruct (seqZ 0 (n_blocks n s) !! i) as [j|] eqn:Hj; simpl; [|done].
    apply lookup_seqZ in Hj as [-> Hlt]. intros [= <-].
    split; [lia|]. by rewrite Z.add_0_l.
  - intros [Hlt ->].
    rewrite (proj2 (lookup_seqZ 0 (n_blocks n s) i (Z.of_nat i)));
      [done | lia].
Qed.

Lemma block_ranges_length n s rs :
  0 < n → 0 < s → block_ranges n s = Ok rs →
  Z.of_nat (length rs) = n_blocks n s.
Proof.
  intros Hn Hs. rewrite block_ranges_ok by done. intros [= <-].
  rewrite length_fmap, length_seqZ.
  pose proof (n_blocks_bounds n s Hn Hs). lia.
Qed.

(** The block that holds sample [x] is number [x // block_size]. *)
Lemma block_ranges_holds n s rs (i : nat) a x :
  0 < n → 0 < s → block_ranges n s = Ok rs →
  rs !! i = Some a → a.1 ≤ x < a.2 → Z.of_nat i = x / s ∧ 0 ≤ x < n.
Proof.
  intros Hn Hs Hrs Hi Hx.
  apply (block_ranges_lookup n s rs i a Hn Hs Hrs) in Hi as [Hlt ->].
  simpl in Hx. split; [|lia].
  apply (Z.div_unique x s (Z.of_nat i) (x - Z.of_nat i * s)); lia.
Qed.

Lemma block_ranges_find n s rs x :
  0 < n → 0 < s → block_ranges n s = Ok rs → 0 ≤ x < n →
  rs !! Z.to_nat (x / s) = Some (s * (x / s), Z.min n (s * (x / s) + s)).
Proof.
  intros Hn Hs Hrs Hx.
  apply (block_ranges_lookup n s rs _ _ Hn Hs Hrs).
  pose proof (Z.div_pos x s ltac:(lia) Hs) as Hq.
  rewrite Z2Nat.id by done.
  pose proof (n_blocks_bounds n s Hn Hs) as [_ [_ Hub]].
  pose proof (Z.mul_div_le x s Hs) as Hle.
  split; [nia|]. f_equal; [lia|]. f_equal. lia.
Qed.

Lemma tiles_of_block_ranges n s rs :
  0 < n → 0 < s → block_ranges n s = Ok rs → tiles n s rs.
Proof.
  intros Hn Hs Hrs.
  pose proof (n_blocks_bounds n s Hn Hs) as (Hpos & Hlo & Hhi).
  pose proof (block_ranges_length n s rs Hn Hs Hrs) as Hlen.
  pose proof (block_ranges_lookup n s rs) as Hlk.
  split.
  - eexists. apply Hlk; [done..|]. split; [simpl; lia|done].
  - exists ((n_blocks n s - 1) * s).
    rewrite last_lookup.
    apply Hlk; [done..|]. split; [lia|].
    replace (Z.of_nat (Nat.pred (length rs))) with (n_blocks n s - 1) by lia.
    f_equal. lia.
  - intros i a b Ha Hb.
    apply Hlk in Ha as [_ ->]; [|done..].
    apply Hlk in Hb as [Hb ->]; [|done..]. simpl. nia.
  - intros a [i Ha]%list_elem_of_lookup.
    apply Hlk in Ha as [Hi ->]; [|done..]. simpl. nia.
  - intros i a Ha Hi.
    apply Hlk in Ha as [_ ->]; [|done..]. simpl. nia.
  - intros x. split.
    + intros Hx. eexists. split.
      * eapply list_elem_of_lookup_2. by apply (block_ranges_find n s rs x).
      * simpl. pose proof (Z.mul_div_le x s Hs).
        pose proof (Z.mul_succ_div_gt x s Hs). lia.
    + intros (a & [i Ha]%list_elem_of_lookup & Hx).
      by destruct (block_ranges_holds n s rs i a x).
  - intros x i j a b Ha Hb Hxa Hxb.
    destruct (block_ranges_holds n s rs i a x) as [Hi _]; [done..|].
    destruct (block_ranges_holds n s rs j b x) as [Hj _]; [done..|].
    lia.
Qed.

End Partition.

(** ** Strings: what the builtins do on block file names *)

Section Strings.

Implicit Types (s t : string) (a c : ascii).

Lemma string_app_cons a s t : String a s +:+ t = String a (s +:+ t).
Proof. reflexivity. Qed.

Lemma string_app_empty s : EmptyString +:+ s = s.
Proof. reflexivity. Qed.

Lemma string_app_assoc s t u : (s +:+ t) +:+ u = s +:+ (t +:+ u).
Proof. induction s as [|a s IH]; [done|]. rewrite !string_app_cons. by f_equal. Qed.

Lemma string_length_app s t :
  String.length (s +:+ t) = (String.length s + String.length t)%nat.
Proof. induction s as [|a s IH]; [done|]. rewrite string_app_cons. simpl. lia. Qed.

Lemma all_chars_app P s t :
  all_chars P (s +:+ t) = all_chars P s && all_chars P t.
Proof.
  induction s as [|a s IH]; [done|]. rewrite string_app_cons. simpl.
  rewrite IH. by destruct (P a).
Qed.

Lemma all_chars_impl (P Q : ascii → bool) s :
  (∀ a, P a = true → Q a = true) → all_chars P s = true → all_chars Q s = true.
Proof.
  intros HPQ. induction s as [|a s IH]; [done|]. simpl.
  intros [Ha Hs]%andb_true_iff. rewrite (HPQ a Ha). auto.
Qed.

Lemma digit_not c :
  is_digit c = false → ∀ a, is_digit a = true → negb (Ascii.eqb a c) = true.
Proof.
  intros Hc a Ha. destruct (Ascii.eqb_spec a c) as [->|]; [|done].
  congruence.
Qed.

Lemma digits_lack c s :
  is_digit c = false → all_chars is_digit s = true → lacks c s = true.
Proof. intros Hc. apply all_chars_impl, digit_not, Hc. Qed.

Lemma zeros_digits k : all_chars is_digit (Py.zeros k) = true.
Proof. induction k; [done|]. simpl. by rewrite IHk. Qed.

Lemma length_zeros k : String.length (Py.zeros k) = k.
Proof. induction k; simpl; congruence. Qed.

Lemma string_of_uint_digits d :
  all_chars is_digit (NilEmpty.string_of_uint d) = true.
Proof. induction d; simpl; try rewrite IHd; done. Qed.

(** [str] of a natural number is a non-empty string of digits. *)
Lemma str_digits z :
  0 ≤ z → all_chars is_digit (Py.str z) = true ∧ Py.str z ≠ EmptyString.
Proof.
  intros Hz. unfold Py.str. destruct z as [|p|p]; [done| |lia].
  simpl. unfold NilZero.string_of_uint.
  pose proof (string_of_uint_digits (Pos.to_uint p)) as Hd.
  destruct (Pos.to_uint p) eqn:Hp; done.
Qed.

Lemma uint_of_string_zeros k s :
  NilEmpty.uint_of_string (Py.zeros k +:+ s) =
    Nat.iter k Decimal.D0 <$> NilEmpty.uint_of_string s.
Proof.
  induction k as [|k IH]; simpl.
  - rewrite string_app_empty. by destruct (NilEmpty.uint_of_string s).
  - rewrite IH. by destruct (NilEmpty.uint_of_string s).
Qed.

Lemma of_uint_zeros k d : Z.of_uint (Nat.iter k Decimal.D0 d) = Z.of_uint d.
Proof. induction k as [|k IH]; [done|]. simpl. by rewrite <- IH. Qed.

(** [int] undoes [str], whatever zeros are put in front. *)
Lemma int_zeros_str k z : 0 ≤ z → Py.int (Py.zeros k +:+ Py.str z) = Ok z.
Proof.
  intros Hz. destruct (str_digits z Hz) as [_ Hne].
  unfold Py.int, NilZero.uint_of_string.
  assert (∃ d, NilEmpty.uint_of_string (Py.str z) = Some d
               ∧ Z.of_uint d = z) as (d & Hu & Hof).
  { unfold Py.str. destruct z as [|p|p]; [by eexists| |lia].
    exists (Pos.to_uint p). simpl. split.
    - unfold NilZero.string_of_uint.
      destruct (Pos.to_uint p) eqn:Hp; try apply NilEmpty.usu.
      pose proof (DecimalPos.Unsigned.of_to p) as Hof. by rewrite Hp in Hof.
    - apply (DecimalZ.of_to (Z.pos p)). }
  destruct (Py.zeros k +:+ Py.str z) eqn:Hs.
  { destruct k; [rewrite string_app_empty in Hs; done|done]. }
  rewrite <- Hs, uint_of_string_zeros, Hu. simpl.
  by rewrite of_uint_zeros, Hof.
Qed.

Lemma digits_first s :
  all_chars is_digit s = true → s ≠ EmptyString →
  ∃ a r, s = String a r ∧ is_digit a = true.
Proof.
  destruct s as [|a r]; [done|]. simpl.
  intros [Ha _]%andb_true_iff _. eauto.
Qed.

(** On a natural number [zfill] only puts zeros in front. *)
Lemma zfill_str z w :
  0 ≤ z →
  Py.zfill (Py.str z) w =
    Py.zeros (Z.to_nat (w - Z.of_nat (String.length (Py.str z)))) +:+ Py.str z.
Proof.
  intros Hz. destruct (str_digits z Hz) as [Hd Hne].
  destruct (digits_first _ Hd Hne) as (a & r & Hs & Ha).
  unfold Py.zfill. rewrite Hs.
  set (fill := w - Z.of_nat (String.length (String a r))).
  destruct (Z.leb_spec fill 0) as [Hle|Hlt].
  - by replace (Z.to_nat fill) with O by lia.
  - destruct (Ascii.eqb_spec a "+") as [->|]; [done|].
    destruct (Ascii.eqb_spec a "-") as [->|]; done.
Qed.

Lemma rfind_lacks c s : lacks c s = true → Py.rfind c s = -1.
Proof.
  induction s as [|a s IH]; [done|]. simpl.
  intros [Ha Hs]%andb_true_iff. rewrite (IH Hs). simpl.
  by destruct (Ascii.eqb a c).
Qed.

Lemma rfind_app_cons c s t :
  lacks c t = true →
  Py.rfind c (s +:+ String c t) = Z.of_nat (String.length s).
Proof.
  intros Ht. induction s as [|a s IH].
  - rewrite string_app_empty. simpl. rewrite (rfind_lacks c t Ht). simpl.
    by rewrite Ascii.eqb_refl.
  - rewrite string_app_cons. simpl Py.rfind. rewrite IH.
    destruct (Z.leb_spec 0 (Z.of_nat (String.length s))); simpl String.length; lia.
Qed.

Lemma string_drop_app s t : Py.drop (String.length s) (s +:+ t) = t.
Proof. induction s as [|a s IH]; [by destruct t|done]. Qed.

Lemma string_take_app s t : Py.take (String.length s) (s +:+ t) = s.
Proof.
  induction s as [|a s IH]; [by destruct t|]. rewrite string_app_cons. simpl.
  by rewrite IH.
Qed.

Lemma split_lacks c s : lacks c s = true → Py.split c s = [s].
Proof.
  induction s as [|a s IH]; [done|]. simpl.
  intros [Ha Hs]%andb_true_iff. rewrite (IH Hs).
  by destruct (Ascii.eqb a c).
Qed.

Lemma split_app_cons c s t :
  lacks c s = true → Py.split c (s +:+ String c t) = s :: Py.split c t.
Proof.
  induction s as [|a s IH]; intros Hs.
  - rewrite string_app_empty. simpl. by rewrite Ascii.eqb_refl.
  - simpl in Hs. apply andb_true_iff in Hs as [Ha Hs].
    rewrite string_app_cons. simpl. rewrite (IH Hs).
    by destruct (Ascii.eqb a c).
Qed.

Lemma endswith_inv c s :
  Py.endswith c s = true → ∃ s', s = s' +:+ String c EmptyString.
Proof.
  induction s as [|a s IH]; [done|]. simpl. destruct s as [|b s].
  - intros ->%Ascii.eqb_eq. by exists EmptyString.
  - intros [s' ->]%IH. by exists (String a s').
Qed.

(** [basename] undoes [join] on a name without a separator. *)
Lemma basename_join dir name :
  lacks "/" name = true →
  os_path.basename (os_path.join dir name) = name.
Proof.
  intros Hname. unfold os_path.join.
  assert (Py.startswith "/" name = false) as ->.
  { destruct name as [|a r]; [done|]. simpl in *.
    apply andb_true_iff in Hname as [Ha _]. by destruct (Ascii.eqb a "/"). }
  assert (∀ s, os_path.basename ((s +:+ "/") +:+ name) = name) as Hsep.
  { intros s. unfold os_path.basename, Py.from.
    rewrite string_app_assoc, string_app_cons, string_app_empty, rfind_app_cons by done.
    replace (Z.to_nat (Z.of_nat (String.length s) + 1))
      with (String.length (s +:+ "/")) by (rewrite string_length_app; simpl; lia).
    rewrite <- (string_app_empty name) at 1. rewrite <- string_app_cons, <- string_app_assoc.
    apply string_drop_app. }
  destruct (String.eqb_spec dir EmptyString) as [->|_]; simpl.
  - rewrite string_app_empty. unfold os_path.basename.
    by rewrite rfind_lacks.
  - destruct (Py.endswith "/" dir) eqn:Hend.
    + apply endswith_inv in Hend as [s ->]. apply Hsep.
    + rewrite <- string_app_assoc. apply Hsep.
Qed.

(** [splitext] cuts at the dot of an extension, when the stem has neither
    dot nor separator and the extension has no further dot. *)
Lemma splitext_stem stem ext :
  lacks "/" stem = true → lacks "." stem = true → stem ≠ EmptyString →
  lacks "/" ext = true → lacks "." ext = true →
  os_path.splitext (stem +:+ String "." ext) = (stem, String "." ext).
Proof.
  intros Hsep Hdot Hne Hsep' Hdot'. unfold os_path.splitext.
  rewrite (rfind_lacks "/"), (rfind_app_cons "."); [|done|].
  2:{ unfold lacks. rewrite all_chars_app. simpl.
      unfold lacks in Hsep, Hsep'. by rewrite Hsep, Hsep'. }
  unfold Py.upto, Py.from. rewrite Nat2Z.id, string_take_app, string_drop_app. simpl.
  destruct (Z.ltb_spec (-1) (Z.of_nat (String.length stem))); [|lia]. simpl.
  destruct stem as [|a r]; [done|]. simpl in *.
  apply andb_true_iff in Hdot as [Ha _].
  by destruct (Ascii.eqb a ".").
Qed.

(** A boundary index as it appears in a block file name. *)
Lemma zfill_str_digits z w :
  0 ≤ z →
  all_chars is_digit (Py.zfill (Py.str z) w) = true ∧
  Py.zfill (Py.str z) w ≠ EmptyString ∧
  Py.int (Py.zfill (Py.str z) w) = Ok z.
Proof.
  intros Hz. rewrite zfill_str by done.
  destruct (str_digits z Hz) as [Hd Hne]. split_and!.
  - by rewrite all_chars_app, zeros_digits, Hd.
  - intros Hnil. apply (f_equal String.length) in Hnil.
    rewrite string_length_app in Hnil. destruct (Py.str z); simpl in *; [done|lia].
  - by apply int_zeros_str.
Qed.

(** The name of a block file gives back the range it was made from. *)
Lemma parse_block_path dir nd r :
  0 ≤ r.1 → 0 ≤ r.2 →
  BlockPathMap.parse (os_path.join dir (block_name nd r)) = Ok r.
Proof.
  destruct r as [b e]. simpl. intros Hb He.
  destruct (zfill_str_digits b nd Hb) as (HdB & HneB & HiB).
  destruct (zfill_str_digits e nd He) as (HdE & HneE & HiE).
  unfold BlockPathMap.parse, block_name. simpl.
  set (B := Py.zfill (Py.str b) nd) in *.
  set (E := Py.zfill (Py.str e) nd) in *.
  assert (∀ c, is_digit c = false →
            negb (Ascii.eqb "-" c) = true →
            lacks c (B +:+ "-" +:+ E) = true) as Hstem.
  { intros c Hc Hm. unfold lacks. rewrite all_chars_app, string_app_cons, string_app_empty.
    cbn [all_chars]. rewrite Hm. fold (lacks c B). fold (lacks c E).
    by rewrite !digits_lack. }
  replace (B +:+ "-" +:+ E +:+ ".hdf5")
    with ((B +:+ "-" +:+ E) +:+ String "." "hdf5")
    by (by rewrite !string_app_assoc).
  rewrite basename_join.
  2:{ unfold lacks. rewrite all_chars_app. fold (lacks "/" (B +:+ "-" +:+ E)).
      by rewrite Hstem. }
  rewrite splitext_stem; [|by apply Hstem|by apply Hstem| |done|done].
  2:{ intros Hnil. apply (f_equal String.length) in Hnil.
      rewrite string_length_app in Hnil. destruct B; simpl in *; [done|lia]. }
  cbn [fst]. rewrite string_app_cons, string_app_empty, split_app_cons, split_lacks
    by (by apply digits_lack).
  simpl. by rewrite HiB, HiE.
Qed.

End Strings.

(** ** The width of the numerals *)

Section Width.

Lemma pow10_log2 n : 0 < n → n ≤ 10 ^ Z.of_nat (S (Z.to_nat (Z.log2 n))).
Proof.
  intros Hn. pose proof (Z.log2_nonneg n) as Hl.
  pose proof (Z.log2_spec n Hn) as [_ Hlt].
  replace (Z.of_nat (S (Z.to_nat (Z.log2 n)))) with (Z.succ (Z.log2 n)) by lia.
  pose proof (Z.pow_le_mono_l 2 10 (Z.succ (Z.log2 n))). lia.
Qed.

Lemma ceil_log10_from_spec fuel k p n :
  0 ≤ k → p = 10 ^ k → (0 < k → 10 ^ (k - 1) < n) →
  n ≤ p * 10 ^ Z.of_nat fuel →
  let r := ceil_log10_from fuel k p n in
  k ≤ r ∧ n ≤ 10 ^ r ∧ (0 < r → 10 ^ (r - 1) < n).
Proof.
  revert k p. induction fuel as [|fuel IH]; intros k p Hk Hp Hlo Hhi; simpl.
  - simpl in Hhi. split_and!; [lia|lia|done].
  - destruct (Z.leb_spec n p) as [Hle|Hgt].
    + split_and!; [lia|lia|done].
    + destruct (IH (k + 1) (10 * p)) as (H1 & H2 & H3).
      * lia.
      * rewrite Z.pow_add_r by lia. lia.
      * intros _. replace (k + 1 - 1) with k by lia. lia.
      * rewrite Nat2Z.inj_succ, Z.pow_succ_r in Hhi by lia. lia.
      * split_and!; [lia|done|done].
Qed.

(** [ceil_log10 n] is the least [k] with [n <= 10^k]. *)
Lemma ceil_log10_spec n :
  0 < n →
  0 ≤ ceil_log10 n ∧ n ≤ 10 ^ ceil_log10 n ∧
  (0 < ceil_log10 n → 10 ^ (ceil_log10 n - 1) < n).
Proof.
  intros Hn. apply (ceil_log10_from_spec _ 0 1 n); [lia|done|lia|].
  pose proof (pow10_log2 n Hn). lia.
Qed.




Lemma length_string_of_uint_acc l acc :
  Z.pos acc * 10 ^ Z.of_nat (String.length (NilEmpty.string_of_uint l))
    ≤ Z.pos (Pos.of_uint_acc l acc).
Proof.
  revert acc. induction l as [|l IH|l IH|l IH|l IH|l IH|l IH|l IH|l IH|l IH|l IH];
    intros acc; [simpl; lia|..];
    cbn [NilEmpty.string_of_uint String.length Pos.of_uint_acc];
    rewrite Nat2Z.inj_succ, Z.pow_succ_r by lia;
    (etrans; [|apply IH]);
    pose proof (Z.pow_pos_nonneg 10
      (Z.of_nat (String.length (NilEmpty.string_of_uint l))));
    nia.
Qed.

(** A positive number is at least [10^(d - 1)], with [d] the length of
    its numeral: [str] writes no zero in front. *)
Lemma str_lower i :
  0 < i → 10 ^ (Z.of_nat (String.length (Py.str i)) - 1) ≤ i.
Proof.
  intros Hi. destruct i as [|p|p]; [lia| |lia].
  unfold Py.str. simpl. unfold NilZero.string_of_uint.
  pose proof (DecimalPos.Unsigned.of_to p) as Hof.
  pose proof (DecimalPos.Unsigned.to_of (Pos.to_uint p)) as Hnorm.
  rewrite Hof in Hnorm. simpl in Hnorm.
  pose proof (DecimalPos.Unsigned.to_uint_nonzero p) as Hnz.
  destruct (Pos.to_uint p) as [|l|l|l|l|l|l|l|l|l|l] eqn:Hd; [done|..].
  { exfalso. unfold Decimal.unorm in Hnorm. simpl in Hnorm.
    pose proof (DecimalFacts.nb_digits_nzhead l) as Hnb.
    destruct (Decimal.nzhead l) eqn:Hl; simplify_eq; simpl in Hnb; lia. }
  all: cbn [NilEmpty.string_of_uint String.length];
    injection Hof as <-;
    pose proof (length_string_of_uint_acc l) as Hacc;
    replace (Z.of_nat (S (String.length (NilEmpty.string_of_uint l))) - 1)
      with (Z.of_nat (String.length (NilEmpty.string_of_uint l))) by lia;
    (etrans; [|apply Hacc]);
    pose proof (Z.pow_pos_nonneg 10
      (Z.of_nat (String.length (NilEmpty.string_of_uint l))));
    nia.
Qed.

(** No index up to [n_samples] needs more than [n_digits] characters. *)
Lemma str_length_le i n :
  0 ≤ i ≤ n → 0 < n →
  Z.of_nat (String.length (Py.str i)) ≤ ceil_log10 n + 1.
Proof.
  intros Hi Hn. destruct (ceil_log10_spec n Hn) as (Hc0 & Hc1 & _).
  destruct (Z.eq_dec i 0) as [->|]; [simpl; lia|].
  pose proof (str_lower i ltac:(lia)) as Hlo.
  destruct (str_digits i ltac:(lia)) as [_ Hne].
  assert (Z.of_nat (String.length (Py.str i)) - 1 ≤ ceil_log10 n); [|lia].
  apply (Z.pow_le_mono_r_iff 10); lia.
Qed.

Lemma zfill_padded i w : 0 ≤ i → Py.zfill (Py.str i) w = padded w i.
Proof. apply zfill_str. Qed.

Lemma length_padded i w :
  Z.of_nat (String.length (Py.str i)) ≤ w →
  Z.of_nat (String.length (padded w i)) = w.
Proof. intros Hw. unfold padded. rewrite string_length_app, length_zeros. lia. Qed.

End Width.

(** ** Properties of the descriptors *)

Section Descriptors.

Implicit Types (dir : string) (bl : list block).

Lemma all_blocks_ok dir n s :
  0 < n → 0 < s →
  ∃ rs, block_ranges n s = Ok rs ∧
        all_blocks dir n s = Ok (block_of dir (ceil_log10 n + 1) <$> rs).
Proof.
  intros Hn Hs. eexists. split; [by apply block_ranges_ok|].
  unfold all_blocks. rewrite block_ranges_ok by done. simpl.
  unfold n_digits.
  destruct (Z.eqb_spec n 0); [lia|]. by destruct (Z.ltb_spec n 0); [lia|].
Qed.

(** Whenever [all_blocks] returns, the descriptors are those of the
    ranges, which lie in [[0, n_samples]]. *)
Lemma all_blocks_inv dir n s bl :
  all_blocks dir n s = Ok bl →
  0 < n ∧ ∃ rs, block_ranges n s = Ok rs ∧
    bl = block_of dir (ceil_log10 n + 1) <$> rs ∧
    NoDup rs ∧ ∀ r, r ∈ rs → 0 ≤ r.1 ∧ r.1 < r.2 ∧ r.2 ≤ n.
Proof.
  unfold all_blocks. destruct (block_ranges n s) as [rs|] eqn:Hrs; [|done].
  simpl. unfold n_digits.
  destruct (Z.eqb_spec n 0); [done|].
  destruct (Z.ltb_spec n 0); [done|]. simpl. intros [= <-].
  split; [lia|]. exists rs. split_and!; [done..| |].
  - destruct (Z.lt_trichotomy s 0) as [Hs|[->|Hs]].
    + unfold block_ranges, Py.range, Py.range_length in Hrs.
      destruct (Z.eqb_spec s 0); [lia|].
      destruct (Z.ltb_spec 0 s); [lia|].
      destruct (Z.ltb_spec n 0); [lia|].
      simpl in Hrs. injection Hrs as <-. constructor.
    + done.
    + rewrite block_ranges_ok in Hrs by lia. injection Hrs as <-.
      apply NoDup_fmap_2_strong; [|apply NoDup_seqZ].
      intros x y _ _ [= Hxy]. nia.
  - intros r Hr. destruct (Z.lt_trichotomy s 0) as [Hs|[->|Hs]].
    + unfold block_ranges, Py.range, Py.range_length in Hrs.
      destruct (Z.eqb_spec s 0); [lia|].
      destruct (Z.ltb_spec 0 s); [lia|].
      destruct (Z.ltb_spec n 0); [lia|].
      simpl in Hrs. injection Hrs as <-. by apply elem_of_nil in Hr.
    + done.
    + destruct (tiles_of_block_ranges n s rs ltac:(lia) Hs Hrs) as [_ _ _ Hb _ _ _].
      destruct (Hb r Hr) as (? & ? & ? & ?). done.
Qed.

(** Distinct descriptors have distinct paths. *)
Lemma all_blocks_paths dir n s bl :
  all_blocks dir n s = Ok bl →
  NoDup (path <$> bl) ∧
  ∀ b, b ∈ bl → BlockPathMap.parse (path b) = Ok (range b).
Proof.
  intros (Hn & rs & Hrs & -> & Hnd & Hbounds)%all_blocks_inv.
  assert (∀ r, r ∈ rs →
    BlockPathMap.parse (path (block_of dir (ceil_log10 n + 1) r)) = Ok r)
    as Hparse.
  { intros r Hr. destruct (Hbounds r Hr) as (? & ? & ?).
    apply parse_block_path; lia. }
  split.
  - rewrite <- list_fmap_compose.
    apply NoDup_fmap_2_strong; [|done].
    intros x y Hx Hy Hxy.
    pose proof (Hparse x Hx) as Hpx. simpl in Hxy, Hpx.
    rewrite Hxy in Hpx. pose proof (Hparse y Hy) as Hpy. simpl in Hpy.
    congruence.
  - intros b (r & -> & Hr)%list_elem_of_fmap. by apply Hparse.
Qed.

Lemma all_blocks_NoDup dir n s bl : all_blocks dir n s = Ok bl → NoDup bl.
Proof.
  intros Hbl. apply (NoDup_fmap_1 path). by eapply all_blocks_paths.
Qed.

End Descriptors.

(** C1. For positive [n_samples] and [block_size], the block ranges that
    [get_blocks] computes tile [[0, n_samples)]: they start at 0, end at
    [n_samples], each range ends where the next begins, no sample lies in
    two ranges, every sample lies in one, no range is longer than
    [block_size], and all but the last have exactly that length. They are
    the ranges of the descriptors, in order. *)
Theorem block_ranges_tile n_samples block_size :
  0 < n_samples → 0 < block_size →
  ∃ rs, block_ranges n_samples block_size = Ok rs ∧
        tiles n_samples block_size rs ∧
        ∀ project_dir, ∃ bl,
          all_blocks project_dir n_samples block_size = Ok bl ∧ range <$> bl = rs.
Proof.
  intros Hn Hs. eexists. split_and!; [by apply block_ranges_ok| |].
  - apply tiles_of_block_ranges; [done..|]. by apply block_ranges_ok.
  - intros project_dir.
    destruct (all_blocks_ok project_dir n_samples block_size Hn Hs)
      as (rs & Hrs & Hbl).
    eexists. split; [done|]. rewrite block_ranges_ok in Hrs by done.
    injection Hrs as <-. rewrite <- list_fmap_compose. apply list_fmap_id.
Qed.

Lemma block_ranges_tile_witness :
  ∃ rs, block_ranges 250 100 = Ok rs ∧
        tiles 250 100 rs ∧
        ∀ project_dir, ∃ bl,
          all_blocks project_dir 250 100 = Ok bl ∧ range <$> bl = rs.
Proof. apply (block_ranges_tile 250 100); lia. Defined.

Example block_ranges_250_100 :
  block_ranges 250 100 = Ok [(0, 100); (100, 200); (200, 250)].
Proof. reflexivity. Qed.




Example all_blocks_100_50 :
  all_blocks "proj" 100 50 =
    Ok [Block (0, 50) "proj/000-050.hdf5"; Block (50, 100) "proj/050-100.hdf5"].
Proof. reflexivity. Qed.

(** ** Properties of the scan *)

Section ScannerFacts.

Context {h5 : Type}.
Implicit Types (fs : gmap string (file h5)) (paths : list string).
Implicit Types (validate : h5 → result ()) (known : gset string).

(** A turn of the loop on an expected, existing file keeps the directory
    or removes that one file. *)
Lemma validate_block_ok known validate fs p :
  p ∈ known → is_Some (fs !! p) →
  validate_block known validate fs p = Ok fs ∨
  validate_block known validate fs p = Ok (delete p fs).
Proof.
  intros Hk [f Hf]. unfold validate_block, h5py_File, os_remove.
  rewrite decide_True by done. rewrite Hf.
  destruct f as [|f]; [by right|].
  destruct (validate f); auto.
Qed.

Lemma validate_blocks_ok known validate fs paths :
  NoDup paths →
  (∀ p, p ∈ paths → p ∈ known ∧ is_Some (fs !! p)) →
  ∃ fs', validate_blocks known validate fs paths = Ok fs' ∧
         ∀ p, (p ∉ paths → fs' !! p = fs !! p) ∧
              (is_Some (fs' !! p) → fs' !! p = fs !! p).
Proof.
  intros Hnd. revert fs.
  induction Hnd as [|p paths Hp Hnd IH]; intros fs Hin; simpl.
  { by exists fs. }
  destruct (Hin p) as [Hk Hsome]; [by left|].
  assert (∀ fs1, (∀ q, q ≠ p → fs1 !! q = fs !! q) →
                 (is_Some (fs1 !! p) → fs1 !! p = fs !! p) →
    ∃ fs', validate_blocks known validate fs1 paths = Ok fs' ∧
      ∀ q, (q ∉ p :: paths → fs' !! q = fs !! q) ∧
           (is_Some (fs' !! q) → fs' !! q = fs !! q)) as Hnext.
  { intros fs1 Hother Hsame. destruct (IH fs1) as (fs' & Hfs' & Hlk).
    - intros q Hq. destruct (Hin q) as [? ?]; [by right|].
      split; [done|]. rewrite Hother; [done|]. by intros ->.
    - exists fs'. split; [done|]. intros q. destruct (Hlk q) as [Hout Hsm].
      split.
      + intros Hq%not_elem_of_cons. destruct Hq as [Hne Hq].
        by rewrite Hout, Hother.
      + intros Hq. rewrite (Hsm Hq).
        destruct (decide (q = p)) as [->|Hne]; [|by apply Hother].
        apply Hsame. by rewrite <- (Hsm Hq). }
  destruct (validate_block_ok known validate fs p Hk Hsome) as [-> | ->];
    simpl; apply Hnext.
  - done.
  - done.
  - intros q Hq. by rewrite lookup_delete_ne.
  - rewrite lookup_delete_eq. by intros [? ?].
Qed.

(** The assertion of line 128 holds at every turn of the loop. *)
Lemma validate_blocks_no_assertion known validate fs paths :
  (∀ p, p ∈ paths → p ∈ known) →
  raises AssertionError (validate_blocks known validate fs paths) = false.
Proof.
  revert fs. induction paths as [|p paths IH]; intros fs Hin; [done|].
  simpl. unfold validate_block at 1.
  rewrite decide_True by (apply Hin; by left).
  assert (∀ fs1, raises AssertionError
    (validate_blocks known validate fs1 paths) = false) as Hnext.
  { intros fs1. apply IH. intros q Hq. apply Hin. by right. }
  assert (raises AssertionError
    (os_remove fs p ≫= λ fs1, validate_blocks known validate fs1 paths)
    = false) as Hrm.
  { unfold os_remove. destruct (fs !! p); [apply Hnext|done]. }
  destruct (h5py_File fs p) as [f|]; [|done].
  destruct (validate f); [apply Hnext|done].
Qed.

Lemma get_blocks_ok rank fs dir n s (v : option (h5 → result ())) :
  0 < n → 0 < s →
  ∃ fs' bl, all_blocks dir n s = Ok bl ∧
            get_blocks rank fs dir n s v = Ok (fs', collect fs' bl).
Proof.
  intros Hn Hs. destruct (all_blocks_ok dir n s Hn Hs) as (rs & _ & Hbl).
  unfold get_blocks. rewrite Hbl. simpl.
  set (bl := block_of dir (ceil_log10 n + 1) <$> rs) in *.
  destruct (rank =? 0); [|by eauto].
  destruct (validate_blocks_ok (list_to_set (path <$> bl))
    (default (λ _, Ok ()) v) fs
    (path <$> filter (λ b, os_path_exists fs (path b)) bl))
    as (fs' & -> & _).
  - destruct (all_blocks_paths _ _ _ _ Hbl) as [Hnd _].
    eapply sublist_NoDup; [done|]. apply fmap_sublist, sublist_filter.
  - intros p (b & -> & [Hex Hb]%list_elem_of_filter)%list_elem_of_fmap.
    split; [|done]. apply elem_of_list_to_set, list_elem_of_fmap. eauto.
  - eauto.
Qed.

Lemma get_blocks_inv rank fs dir n s (v : option (h5 → result ())) fs' b :
  get_blocks rank fs dir n s v = Ok (fs', b) →
  ∃ bl, all_blocks dir n s = Ok bl ∧ b = collect fs' bl.
Proof.
  unfold get_blocks. destruct (all_blocks dir n s) as [bl|]; [|done].
  simpl. intros Hget. exists bl. split; [done|].
  destruct (rank =? 0).
  - destruct (validate_blocks _ _ _ _); [|done]. by injection Hget as <- <-.
  - by injection Hget as <- <-.
Qed.

Lemma get_blocks_no_assertion rank fs dir n s (v : option (h5 → result ())) :
  raises AssertionError (get_blocks rank fs dir n s v) = false.
Proof.
  unfold get_blocks. destruct (all_blocks dir n s) as [bl|e] eqn:Hbl.
  - simpl. destruct (rank =? 0); [|done].
    pose proof (validate_blocks_no_assertion (list_to_set (path <$> bl))
      (default (λ _, Ok ()) v) fs
      (path <$> filter (λ b, os_path_exists fs (path b)) bl)) as Hno.
    destruct (validate_blocks _ _ _ _); [done|]. apply Hno.
    intros p (b & -> & [Hex Hb]%list_elem_of_filter)%list_elem_of_fmap.
    apply elem_of_list_to_set, list_elem_of_fmap. eauto.
  - simpl. unfold all_blocks, block_ranges, Py.range, n_digits in Hbl.
    destruct (s =? 0); [by injection Hbl as <-|]. simpl in Hbl.
    destruct (n =? 0); [by injection Hbl as <-|].
    destruct (n <? 0); [by injection Hbl as <-|]. done.
Qed.

(** After the loop every path it went through is gone or holds a file
    that opens and passes [validate]. *)
Lemma validate_blocks_clean known validate fs paths fs' :
  NoDup paths →
  (∀ p, p ∈ paths → p ∈ known ∧ is_Some (fs !! p)) →
  validate_blocks known validate fs paths = Ok fs' →
  ∀ p x, p ∈ paths → fs' !! p = Some x → ∃ f, x = Hdf5 f ∧ validate f = Ok ().
Proof.
  intros Hnd. revert fs.
  induction Hnd as [|p0 paths Hp0 Hnd IH]; intros fs Hin Hrun p x Hp Hx.
  { by apply elem_of_nil in Hp. }
  simpl in Hrun.
  destruct (Hin p0) as [Hk Hsome]; [by left|].
  destruct (validate_block known validate fs p0) as [fs1|] eqn:Hstep; [|done].
  simpl in Hrun.
  assert (∀ q, q ≠ p0 → fs1 !! q = fs !! q) as Hother.
  { intros q Hq.
    destruct (validate_block_ok known validate fs p0 Hk Hsome) as [Heq|Heq];
      rewrite Heq in Hstep; injection Hstep as <-; [done|].
    by rewrite lookup_delete_ne. }
  assert (∀ q, q ∈ paths → q ∈ known ∧ is_Some (fs1 !! q)) as Hin1.
  { intros q Hq. destruct (Hin q) as [? ?]; [by right|]. split; [done|].
    rewrite Hother; [done|]. by intros ->. }
  apply elem_of_cons in Hp as [->|Hp]; [|by eapply IH].
  destruct (validate_blocks_ok known validate fs1 paths Hnd Hin1)
    as (fs2 & Hrun2 & Hsame).
  rewrite Hrun in Hrun2. injection Hrun2 as <-.
  destruct (Hsame p0) as [Hout _]. rewrite (Hout Hp0) in Hx.
  unfold validate_block, h5py_File, os_remove in Hstep.
  rewrite decide_True in Hstep by done.
  destruct (fs !! p0) as [[|f]|] eqn:Hf.
  - injection Hstep as <-. by rewrite lookup_delete_eq in Hx.
  - destruct (validate f) as [[]|] eqn:Hv; injection Hstep as <-.
    + rewrite Hf in Hx. injection Hx as <-. eauto.
    + by rewrite lookup_delete_eq in Hx.
  - done.
Qed.

(** On rank 0 the blocks that [get_blocks] reports as existing hold files
    that open and pass [validate], and no file is touched but the block
    files that were there. *)
Lemma get_blocks_cleans fs dir n s (v : option (h5 → result ())) fs' b :
  get_blocks 0 fs dir n s v = Ok (fs', b) →
  (∀ d, d ∈ Blocks.existing b →
     ∃ f, fs' !! path d = Some (Hdf5 f) ∧ default (λ _, Ok ()) v f = Ok ()) ∧
  (∀ p, is_Some (fs' !! p) → fs' !! p = fs !! p) ∧
  (∀ bl p, all_blocks dir n s = Ok bl → p ∉ path <$> bl → fs' !! p = fs !! p).
Proof.
  intros Hget. destruct (get_blocks_inv _ _ _ _ _ _ _ _ Hget) as (bl & Hbl & ->).
  unfold get_blocks in Hget. rewrite Hbl in Hget. simpl in Hget.
  set (known := list_to_set (path <$> bl) : gset string) in *.
  set (paths := path <$> filter (λ b, os_path_exists fs (path b)) bl) in *.
  destruct (validate_blocks known (default (λ _, Ok ()) v) fs paths)
    as [fs1|] eqn:Hrun; [|done].
  injection Hget as ->.
  assert (NoDup paths) as Hnd.
  { destruct (all_blocks_paths _ _ _ _ Hbl) as [Hnd _].
    eapply sublist_NoDup; [done|]. apply fmap_sublist, sublist_filter. }
  assert (∀ p, p ∈ paths → p ∈ known ∧ is_Some (fs !! p)) as Hin.
  { intros p (d & -> & [Hex Hd]%list_elem_of_filter)%list_elem_of_fmap.
    split; [|done]. apply elem_of_list_to_set, list_elem_of_fmap. eauto. }
  destruct (validate_blocks_ok known (default (λ _, Ok ()) v) fs paths Hnd Hin)
    as (fs2 & Hrun2 & Hsame).
  rewrite Hrun in Hrun2. injection Hrun2 as <-.
  split_and!.
  - intros d [[x Hx] Hd]%list_elem_of_filter.
    destruct (validate_blocks_clean _ _ _ _ _ Hnd Hin Hrun (path d) x)
      as (f & -> & Hv); [|done|by eauto].
    apply list_elem_of_fmap. exists d. split; [done|].
    apply list_elem_of_filter. split; [|done].
    destruct (Hsame (path d)) as [_ Hsm]. unfold os_path_exists.
    rewrite <- Hsm by (by eexists). by eexists.
  - intros p. by destruct (Hsame p).
  - intros bl' p Hbl' Hp. assert (bl' = bl) as -> by congruence.
    destruct (Hsame p) as [Hout _]. apply Hout.
    intros (d & -> & [_ Hd]%list_elem_of_filter)%list_elem_of_fmap.
    apply Hp, list_elem_of_fmap. eauto.
Qed.

End ScannerFacts.



Example get_blocks_some_dir :
  get_blocks 0 some_dir "proj" 250 100 None =
    Ok ({[ "proj/0000-0100.hdf5"%string := Hdf5 () ]},
        {| Blocks.existing := [Block (0, 100) "proj/0000-0100.hdf5"];
           Blocks.missing := [Block (100, 200) "proj/0100-0200.hdf5";
                              Block (200, 250) "proj/0200-0250.hdf5"] |}).
Proof. by vm_compute. Qed.

(** C2. The assertion of line 128 cannot fail: it is made on paths that
    were taken from the computed descriptors, never on a listing of the
    directory. With ["proj/stray.txt"] in the directory [get_blocks] on
    rank 0 returns as if the file was not there. *)
Theorem get_blocks_ignores_unexpected_file :
  (∀ (h5 : Type) rank (fs : gmap string (file h5)) project_dir n_samples
     block_size validate,
     raises AssertionError
       (get_blocks rank fs project_dir n_samples block_size validate) = false) ∧
  all_blocks "proj" 250 100 =
    Ok [Block (0, 100) "proj/0000-0100.hdf5";
        Block (100, 200) "proj/0100-0200.hdf5";
        Block (200, 250) "proj/0200-0250.hdf5"] ∧
  get_blocks 0 stray_dir "proj" 250 100 None =
    Ok (stray_dir,
        {| Blocks.existing := [Block (0, 100) "proj/0000-0100.hdf5"];
           Blocks.missing := [Block (100, 200) "proj/0100-0200.hdf5";
                              Block (200, 250) "proj/0200-0250.hdf5"] |}).
Proof.
  split_and!.
  - intros. apply get_blocks_no_assertion.
  - reflexivity.
  - by vm_compute.
Qed.

(** ** Properties of the sharding *)

Section Sharding.

Context {A : Type}.
Implicit Types (l : list A) (r W n : Z).

Lemma slice_count_bounds n r W i :
  0 ≤ n → 0 ≤ r → 0 < W → 0 ≤ i →
  0 ≤ slice_count n r W ∧ slice_count n r W ≤ n_blocks n W ∧
  slice_count n 0 W = n_blocks n W ∧
  (i < slice_count n r W ↔ r + i * W < n).
Proof.
  intros Hn Hr HW Hi. unfold slice_count, n_blocks.
  assert (n + W - 1 = (n - 1) + 1 * W) as -> by lia.
  rewrite Z.div_add by lia.
  destruct (Z.ltb_spec r n) as [Hlt|Hge].
  - pose proof (Z.div_pos (n - r - 1) W ltac:(lia) HW).
    pose proof (Z.div_le_mono (n - r - 1) (n - 1) W HW ltac:(lia)).
    destruct (Z.ltb_spec 0 n); [|lia].
    replace (n - 0 - 1) with (n - 1) by lia. split_and!; [lia..|].
    pose proof (Z.div_mod (n - r - 1) W ltac:(lia)).
    pose proof (Z.mod_pos_bound (n - r - 1) W HW). split; nia.
  - destruct (Z.ltb_spec 0 n) as [Hpos|Hz].
    + replace (n - 0 - 1) with (n - 1) by lia.
      pose proof (Z.div_pos (n - 1) W ltac:(lia) HW).
      split_and!; [lia..|]. split; nia.
    + assert (n = 0) as -> by lia. simpl.
      replace ((0 - 1) / W) with (-1).
      2:{ apply (Z.div_unique (0 - 1) W (-1) (W - 1)); lia. }
      split_and!; [lia..|]. split; nia.
Qed.

Lemma fmap_Some_omap {B} (f : B → option A) (xs : list B) :
  (∀ x, x ∈ xs → is_Some (f x)) → Some <$> omap f xs = f <$> xs.
Proof.
  induction xs as [|x xs IH]; intros Hall; [done|]. simpl.
  destruct (Hall x) as [y Hy]; [by left|]. rewrite Hy. simpl. f_equal.
  apply IH. intros z Hz. apply Hall. by right.
Qed.

Lemma omap_ext_in {B} (f g : B → option A) (xs : list B) :
  (∀ x, x ∈ xs → f x = g x) → omap f xs = omap g xs.
Proof.
  induction xs as [|x xs IH]; intros Heq; [done|]. simpl.
  rewrite (Heq x) by (by left).
  assert (omap f xs = omap g xs) as Hxs.
  { apply IH. intros z Hz. apply Heq. by right. }
  destruct (g x); [f_equal|]; apply Hxs.
Qed.

Lemma omap_lookup_seq_from l (j k : nat) :
  (length l ≤ k)%nat → omap (λ i, l !! (i - j)%nat) (seq j k) = l.
Proof.
  revert j k. induction l as [|x l IH]; intros j k Hk.
  - clear Hk. induction (seq j k) as [|i ks IHks]; [done|]. by simpl.
  - destruct k as [|k]; [simpl in Hk; lia|].
    simpl. rewrite Nat.sub_diag. simpl. f_equal.
    etrans; [|apply (IH (S j) k); simpl in Hk; lia].
    apply omap_ext_in. intros i [Hi _]%elem_of_seq.
    by replace (i - j)%nat with (S (i - S j)) by lia.
Qed.

Lemma omap_lookup_seq l k :
  (length l ≤ k)%nat → omap (λ i, l !! i) (seq 0 k) = l.
Proof.
  intros Hk. etrans; [|apply (omap_lookup_seq_from l 0 k Hk)].
  apply omap_ext_in. intros i _. by rewrite Nat.sub_0_r.
Qed.

Lemma omap_fmap {B C} (f : C → option A) (g : B → C) (xs : list B) :
  omap f (g <$> xs) = omap (λ x, f (g x)) xs.
Proof.
  induction xs as [|x xs IH]; [done|]. simpl.
  destruct (f (g x)); [f_equal|]; apply IH.
Qed.

Lemma rank_slice_ok l r W :
  0 ≤ r → 0 < W →
  ∃ sl, rank_slice l r W = Ok sl ∧
    Some <$> sl = (λ i, l !! Z.to_nat (r + i * W))
                    <$> seqZ 0 (slice_count (Z.of_nat (length l)) r W) ∧
    Z.of_nat (length sl) = slice_count (Z.of_nat (length l)) r W.
Proof.
  intros Hr HW. unfold rank_slice, Py.slice.
  destruct (Z.eqb_spec W 0) as [|_]; [lia|]. eexists. split; [done|].
  set (n := Z.of_nat (length l)).
  assert (Py.adjust n W n = n) as ->.
  { unfold Py.adjust. destruct (Z.ltb_spec n 0); [lia|].
    destruct (Z.leb_spec n n); [|lia]. by destruct (Z.ltb_spec W 0); [lia|]. }
  assert (Py.range_length (Py.adjust n W r) n W = slice_count n r W
          ∧ (r < n → Py.adjust n W r = r)) as [-> Hadj].
  { unfold Py.adjust, Py.range_length, slice_count.
    destruct (Z.ltb_spec r 0); [lia|]. destruct (Z.ltb_spec 0 W); [|lia].
    destruct (Z.leb_spec n r).
    - destruct (Z.ltb_spec W 0); [lia|].
      destruct (Z.ltb_spec n n); [lia|]. destruct (Z.ltb_spec r n); [lia|].
      split; [done|lia].
    - by destruct (Z.ltb_spec r n); [|lia]. }
  destruct (slice_count_bounds n r W 0) as (Hc0 & _ & _ & _); [lia..|].
  assert (∀ i, i ∈ seqZ 0 (slice_count n r W) →
            r < n ∧ is_Some (l !! Z.to_nat (r + i * W))) as Hin.
  { intros i [Hi0 Hi]%elem_of_seqZ.
    destruct (slice_count_bounds n r W i) as (_ & _ & _ & Hiff); [lia..|].
    split; [nia|]. apply lookup_lt_is_Some. lia. }
  assert (omap (λ i, l !! Z.to_nat (Py.adjust n W r + i * W))
               (seqZ 0 (slice_count n r W))
          = omap (λ i, l !! Z.to_nat (r + i * W)) (seqZ 0 (slice_count n r W)))
    as ->.
  { apply omap_ext_in. intros i Hi. destruct (Hin i Hi) as [Hlt _].
    by rewrite Hadj. }
  split.
  - apply fmap_Some_omap. intros i Hi. by destruct (Hin i Hi).
  - rewrite <- (length_fmap Some), fmap_Some_omap
      by (intros i Hi; by destruct (Hin i Hi)).
    rewrite length_fmap, length_seqZ. lia.
Qed.

End Sharding.

Section RankSharder.

Implicit Types (l : list block) (r W : Z).

Lemma mapM_ok {A B} (f : A → result B) (g : A → B) (xs : list A) :
  (∀ x, x ∈ xs → f x = Ok (g x)) → mapM f xs = Ok (g <$> xs).
Proof.
  induction xs as [|x xs IH]; intros Hall; [done|]. simpl.
  rewrite (Hall x) by (by left). simpl.
  rewrite IH; [done|]. intros z Hz. apply Hall. by right.
Qed.

Lemma foldr_max_le (ns : list Z) m :
  0 ≤ m → (∀ x, x ∈ ns → x ≤ m) → foldr Z.max 0 ns ≤ m.
Proof.
  intros Hm. induction ns as [|x ns IH]; intros Hall; simpl; [done|].
  pose proof (Hall x ltac:(by left)).
  assert (foldr Z.max 0 ns ≤ m); [|lia].
  apply IH. intros z Hz. apply Hall. by right.
Qed.

Lemma foldr_max_ge (ns : list Z) x : x ∈ ns → x ≤ foldr Z.max 0 ns.
Proof.
  induction ns as [|y ns IH]; [by intros ?%elem_of_nil|].
  intros [->|Hx]%elem_of_cons; simpl; [lia|].
  specialize (IH Hx). lia.
Qed.

(** Every rank learns the length of the longest slice, that of rank 0. *)
Lemma get_world_max_ok l W :
  1 ≤ W →
  get_world_max
    (λ r, l_r ← rank_slice l r W; mret (Z.of_nat (length (l_r : list block)))) W
  = Ok (n_blocks (Z.of_nat (length l)) W).
Proof.
  intros HW. unfold get_world_max.
  rewrite (mapM_ok _ (λ r, slice_count (Z.of_nat (length l)) r W)).
  2:{ intros r [Hr _]%elem_of_seqZ.
      destruct (rank_slice_ok l r W) as (sl & -> & _ & Hlen); [lia..|].
      simpl. by rewrite Hlen. }
  simpl. f_equal. apply Z.le_antisymm.
  - destruct (slice_count_bounds (Z.of_nat (length l)) 0 W 0)
      as (Hc & _ & Hz & _); [lia..|].
    apply foldr_max_le; [lia|].
    intros x (r & -> & [Hr _]%elem_of_seqZ)%list_elem_of_fmap.
    destruct (slice_count_bounds (Z.of_nat (length l)) r W 0)
      as (_ & Hle & _ & _); [lia..|]. done.
  - destruct (slice_count_bounds (Z.of_nat (length l)) 0 W 0)
      as (_ & _ & <- & _); [lia..|].
    apply foldr_max_ge, list_elem_of_fmap. exists 0. split; [done|].
    apply elem_of_seqZ. lia.
Qed.

(** The padded slice of a rank, entry by entry. *)
Lemma rank_blocks_ok l r W :
  0 ≤ r → 1 ≤ W →
  ∃ sl, rank_slice l r W = Ok sl ∧
    rank_blocks l r W = Ok (shard_of l r W) ∧
    shard_of l r W =
      (Some <$> sl) ++ replicate (length (shard_of l r W) - length sl) None ∧
    non_markers (shard_of l r W) = sl.
Proof.
  intros Hr HW. set (n := Z.of_nat (length l)).
  destruct (rank_slice_ok l r W) as (sl & Hsl & Hentries & Hlen); [lia..|].
  destruct (slice_count_bounds n r W 0) as (Hc0 & Hcm & _ & _); [lia..|].
  fold n in Hentries, Hlen.
  assert (shard_of l r W =
    (Some <$> sl) ++ replicate (Z.to_nat (n_blocks n W - slice_count n r W)) None)
    as Hshard.
  { unfold shard_of. fold n.
    replace (n_blocks n W)
      with (slice_count n r W + (n_blocks n W - slice_count n r W)) at 1 by lia.
    rewrite seqZ_app, fmap_app, Hentries by lia. f_equal.
    rewrite Z.add_0_l.
    replace (Z.to_nat (n_blocks n W - slice_count n r W))
      with (length (seqZ (slice_count n r W) (n_blocks n W - slice_count n r W)))
      by apply length_seqZ.
    assert (∀ i, i ∈ seqZ (slice_count n r W) (n_blocks n W - slice_count n r W)
              → l !! Z.to_nat (r + i * W) = None) as Hnone.
    { intros i [Hi _]%elem_of_seqZ.
      destruct (slice_count_bounds n r W i) as (_ & _ & _ & Hiff); [lia..|].
      apply lookup_ge_None. unfold n in *. lia. }
    induction (seqZ (slice_count n r W) (n_blocks n W - slice_count n r W))
      as [|i ks IH]; [done|].
    simpl. rewrite Hnone by (by left). f_equal. apply IH.
    intros j Hj. apply Hnone. by right. }
  exists sl. split_and!; [done| | |].
  - unfold rank_blocks. rewrite Hsl. simpl.
    rewrite get_world_max_ok by done. simpl. f_equal.
    rewrite Hshard. unfold Py.repeat. fold n. by rewrite Hlen.
  - rewrite Hshard at 1. f_equal. f_equal.
    rewrite Hshard, length_app, length_fmap, length_replicate. lia.
  - rewrite Hshard. unfold non_markers.
    rewrite omap_app. clear.
    assert (omap id (replicate
      (Z.to_nat (n_blocks n W - slice_count n r W)) (@None block)) = []) as ->.
    { induction (Z.to_nat _); [done|]. simpl. done. }
    rewrite app_nil_r. induction sl as [|x sl IH]; [done|].
    simpl. f_equal. apply IH.
Qed.

End RankSharder.

Section ShardUnion.

Implicit Types (l : list block) (r W : Z).

(** The positions that the ranks hold between them: each once. *)
Lemma rank_positions W m :
  1 ≤ W → 0 ≤ m →
  (seqZ 0 W ≫= λ r, (λ i, Z.to_nat (r + i * W)) <$> seqZ 0 m)
    ≡ₚ seq 0 (Z.to_nat (m * W)).
Proof.
  intros HW Hm. apply NoDup_Permutation.
  - apply NoDup_bind; [| |apply NoDup_seqZ].
    + intros r1 r2 x [Hr1 Hr1']%elem_of_seqZ [Hr2 Hr2']%elem_of_seqZ
        (i & -> & [Hi _]%elem_of_seqZ)%list_elem_of_fmap
        (j & Hij & [Hj _]%elem_of_seqZ)%list_elem_of_fmap.
      assert (r1 + i * W = r2 + j * W) by nia.
      destruct (Z.lt_trichotomy i j) as [?|[?|?]]; nia.
    + intros r [Hr _]%elem_of_seqZ.
      apply NoDup_fmap_2_strong; [|apply NoDup_seqZ].
      intros i j [Hi _]%elem_of_seqZ [Hj _]%elem_of_seqZ Hij. nia.
  - apply NoDup_seq.
  - intros x. rewrite list_elem_of_bind, elem_of_seq. split.
    + intros (r & (i & -> & [Hi Him]%elem_of_seqZ)%list_elem_of_fmap
                & [Hr HrW]%elem_of_seqZ). nia.
    + intros [_ Hx]. exists (Z.of_nat x `mod` W).
      pose proof (Z.mod_pos_bound (Z.of_nat x) W ltac:(lia)).
      pose proof (Z.div_mod (Z.of_nat x) W ltac:(lia)).
      split; [|apply elem_of_seqZ; lia].
      apply list_elem_of_fmap. exists (Z.of_nat x `div` W). split; [lia|].
      apply elem_of_seqZ. split; [apply Z.div_pos; lia|].
      rewrite Z.add_0_l. apply Z.div_lt_upper_bound; lia.
Qed.

Lemma omap_bind_fmap l W m :
  (seqZ 0 W ≫= λ r, non_markers ((λ i, l !! Z.to_nat (r + i * W)) <$> seqZ 0 m))
  = omap (λ i, l !! i)
      (seqZ 0 W ≫= λ r, (λ i, Z.to_nat (r + i * W)) <$> seqZ 0 m).
Proof.
  induction (seqZ 0 W) as [|r rs IH]; [done|].
  rewrite !bind_cons, omap_app, IH. f_equal. clear IH.
  unfold non_markers. induction (seqZ 0 m) as [|i ks IHks]; [done|].
  simpl. destruct (l !! Z.to_nat (r + i * W)); simpl; [f_equal|]; apply IHks.
Qed.

(** The ranks' blocks together are the blocks of the list. *)
Lemma shard_union l W :
  1 ≤ W → (seqZ 0 W ≫= λ r, non_markers (shard_of l r W)) ≡ₚ l.
Proof.
  intros HW. unfold shard_of. rewrite omap_bind_fmap.
  set (n := Z.of_nat (length l)).
  destruct (Z.eq_dec n 0) as [Hz|Hnz].
  { assert (l = []) as -> by (apply length_zero_iff_nil; lia).
    generalize (seqZ 0 W ≫= λ r, (λ i, Z.to_nat (r + i * W))
                  <$> seqZ 0 (n_blocks n W)).
    intros ks. induction ks as [|i ks IH]; [done|]. simpl. apply IH. }
  destruct (n_blocks_bounds n W) as (Hm & _ & Hub); [lia..|].
  rewrite rank_positions by lia.
  rewrite omap_lookup_seq; [done|]. unfold n in *. lia.
Qed.

Lemma shard_sharded l W : 1 ≤ W → sharded W l (λ r, shard_of l r W).
Proof.
  intros HW. split.
  - intros r Hr. destruct (rank_blocks_ok l r W) as (sl & ? & _ & ? & ?); [lia..|].
    by exists sl.
  - done.
  - intros r Hr. unfold shard_of. rewrite length_fmap, length_seqZ.
    destruct (slice_count_bounds (Z.of_nat (length l)) 0 W 0)
      as (? & _ & <- & _); lia.
  - by apply shard_union.
  - intros Hnd r1 r2 b Hr1 Hr2.
    intros (i & Hi & [Hi0 _]%elem_of_seqZ)%list_elem_of_fmap
           (j & Hj & [Hj0 _]%elem_of_seqZ)%list_elem_of_fmap.
    pose proof (NoDup_lookup l _ _ b Hnd (eq_sym Hi) (eq_sym Hj)).
    assert (r1 + i * W = r2 + j * W) by nia.
    destruct (Z.lt_trichotomy i j) as [?|[?|?]]; nia.
Qed.

End ShardUnion.

(** C5. With [W >= 1] ranks, rank [r] holds the slice [l[r::W]] of each of
    the two lists, followed by markers up to [ceil(len(l) / W)] entries, the
    same length on every rank; the blocks of all ranks together are the
    blocks of the list, each as often as there, and when the list has no
    block twice no block is on two ranks. The lists that [get_blocks]
    returns have no block twice. *)
Theorem rank_sharding (blocks : Blocks.t) (W : Z) :
  1 ≤ W →
  (∃ shard : Z → RankBlocks.t,
     (∀ r, 0 ≤ r < W → get_blocks_by_rank blocks r W = Ok (shard r)) ∧
     sharded W (Blocks.existing blocks) (λ r, RankBlocks.existing (shard r)) ∧
     sharded W (Blocks.missing blocks) (λ r, RankBlocks.missing (shard r))) ∧
  (∀ (h5 : Type) rank (fs fs' : gmap string (file h5)) project_dir n_samples
     block_size validate,
     get_blocks rank fs project_dir n_samples block_size validate = Ok (fs', blocks) →
     NoDup (Blocks.existing blocks) ∧ NoDup (Blocks.missing blocks)).
Proof.
  intros HW. split.
  - exists (λ r,
      {| RankBlocks.n_existing_world := Z.of_nat (length (Blocks.existing blocks));
         RankBlocks.n_missing_world := Z.of_nat (length (Blocks.missing blocks));
         RankBlocks.existing := shard_of (Blocks.existing blocks) r W;
         RankBlocks.missing := shard_of (Blocks.missing blocks) r W |}).
    split_and!.
    + intros r Hr. unfold get_blocks_by_rank.
      destruct (rank_blocks_ok (Blocks.existing blocks) r W)
        as (? & _ & -> & _); [lia..|].
      destruct (rank_blocks_ok (Blocks.missing blocks) r W)
        as (? & _ & -> & _); [lia..|].
      done.
    + by apply shard_sharded.
    + by apply shard_sharded.
  - intros h5 rank fs fs' project_dir n_samples block_size validate Hget.
    apply get_blocks_inv in Hget as (bl & Hbl & ->).
    apply all_blocks_NoDup in Hbl. simpl.
    split; by apply NoDup_filter.
Qed.

(** The scenario of the specification on two ranks. *)
Lemma rank_sharding_witness :
  (∃ shard : Z → RankBlocks.t,
     (∀ r, 0 ≤ r < 2 → get_blocks_by_rank scenario r 2 = Ok (shard r)) ∧
     sharded 2 (Blocks.existing scenario) (λ r, RankBlocks.existing (shard r)) ∧
     sharded 2 (Blocks.missing scenario) (λ r, RankBlocks.missing (shard r))) ∧
  (∀ (h5 : Type) rank (fs fs' : gmap string (file h5)) project_dir n_samples
     block_size validate,
     get_blocks rank fs project_dir n_samples block_size validate = Ok (fs', scenario) →
     NoDup (Blocks.existing scenario) ∧ NoDup (Blocks.missing scenario)).
Proof. apply (rank_sharding scenario 2). lia. Defined.

Example get_blocks_by_rank_scenario :
  get_blocks_by_rank scenario 0 2 =
    Ok {| RankBlocks.n_existing_world := 2; RankBlocks.n_missing_world := 1;
          RankBlocks.existing := [Some (Block (0, 100) "proj/0000-0100.hdf5")];
          RankBlocks.missing := [Some (Block (100, 200) "proj/0100-0200.hdf5")] |} ∧
  get_blocks_by_rank scenario 1 2 =
    Ok {| RankBlocks.n_existing_world := 2; RankBlocks.n_missing_world := 1;
          RankBlocks.existing := [Some (Block (200, 250) "proj/0200-0250.hdf5")];
          RankBlocks.missing := [None] |}.
Proof. split; reflexivity. Qed.

(** ** Properties of the sampling *)

Section SamplerFacts.

Variable shuffle : N → list (option block) → list (option block).
Hypothesis shuffle_perm : ∀ seed l, shuffle seed l ≡ₚ l.

Implicit Types (l : list (option block)) (fraction : Q).

(** [l[:n]] for [0 <= n]. *)
Lemma slice_prefix {A} (xs : list A) n :
  0 ≤ n → Py.slice xs 0 n 1 = Ok (take (Z.to_nat n) xs).
Proof.
  intros Hn. unfold Py.slice. simpl. f_equal.
  set (len := Z.of_nat (length xs)).
  assert (Py.adjust len 1 0 = 0) as ->.
  { unfold Py.adjust. simpl. destruct (Z.leb_spec len 0); lia. }
  assert (Py.range_length 0 (Py.adjust len 1 n) 1 = Z.min n len) as ->.
  { unfold Py.range_length, Py.adjust. simpl.
    destruct (Z.ltb_spec n 0); [lia|].
    destruct (Z.leb_spec len n);
      [destruct (Z.ltb_spec 0 len)|destruct (Z.ltb_spec 0 n)];
      rewrite ?Z.div_1_r; lia. }
  unfold seqZ. rewrite omap_fmap.
  replace (Z.to_nat (Z.min n len)) with (length (take (Z.to_nat n) xs))
    by (rewrite length_take; lia).
  etrans; [|apply (omap_lookup_seq_from (take (Z.to_nat n) xs) 0 _ (le_n _))].
  apply omap_ext_in. intros i [_ Hi]%elem_of_seq. simpl.
  rewrite length_take in Hi.
  replace (Z.to_nat (0 + (Z.of_nat i + 0) * 1)) with i by lia.
  rewrite Nat.sub_0_r. symmetry. apply lookup_take_lt. lia.
Qed.

Lemma n_blocks_sample_bounds fraction (len : nat) :
  (0 <= fraction)%Q →
  0 ≤ n_blocks_sample fraction len ∧
  ((fraction <= 1)%Q → n_blocks_sample fraction len ≤ Z.of_nat len).
Proof.
  intros Hf. unfold n_blocks_sample.
  assert (0 <= inject_Z (Z.of_nat len))%Q as Hlen.
  { rewrite <- (Zle_Qle 0). lia. }
  split.
  - change 0 with (Qceiling 0). apply Qceiling_resp_le.
    by apply Qmult_le_0_compat.
  - intros Hf1. rewrite <- (Qceiling_Z (Z.of_nat len)) at 2.
    apply Qceiling_resp_le. rewrite <- (Qmult_1_l (inject_Z _)) at 2.
    by apply Qmult_le_compat_r.
Qed.

Lemma length_non_markers_filter l :
  length (non_markers l) = length (filter (λ b, b ≠ None) l).
Proof.
  induction l as [|[b|] l IH]; [done|..]; rewrite filter_cons; simpl.
  - by rewrite IH.
  - done.
Qed.

Lemma non_markers_filter l : non_markers (filter (λ b, b ≠ None) l) = non_markers l.
Proof.
  induction l as [|[b|] l IH]; [done|..]; rewrite filter_cons; simpl.
  - by f_equal.
  - done.
Qed.

Lemma non_markers_pad l k : non_markers (l ++ replicate k None) = non_markers l.
Proof.
  unfold non_markers. rewrite omap_app.
  assert (omap id (replicate k (@None block)) = []) as ->
    by (induction k; [done|by simpl]).
  apply app_nil_r.
Qed.

Lemma length_non_markers_all l :
  (∀ x, x ∈ l → x ≠ None) → length (non_markers l) = length l.
Proof.
  induction l as [|[b|] l IH]; intros Hall; [done|..]; simpl.
  - f_equal. apply IH. intros x Hx. apply Hall. by right.
  - by destruct (Hall None); [left|].
Qed.

(** What [sample_blocks] returns, for a fraction that is not negative. *)
Lemma sample_blocks_ok fraction seed l :
  (0 <= fraction)%Q →
  let n := n_blocks_sample fraction (length l) in
  let kept := take (Z.to_nat n) (shuffle seed (filter (λ b, b ≠ None) l)) in
  sample_blocks shuffle (Some fraction) seed l
    = Ok (kept ++ replicate (Z.to_nat n - length kept) None)
  ∧ (∀ x, x ∈ kept → x ≠ None)
  ∧ Z.of_nat (length kept) = Z.min (Z.of_nat (length (non_markers l))) n
  ∧ non_markers kept ⊆+ non_markers l.
Proof.
  intros Hf n kept.
  destruct (n_blocks_sample_bounds fraction (length l) Hf) as [Hn _].
  fold n in Hn. split_and!.
  - unfold sample_blocks. fold n. rewrite slice_prefix by done. simpl.
    fold kept. unfold Py.repeat. do 3 f_equal. lia.
  - intros x Hx. apply (subseteq_take _ _ x) in Hx. rewrite shuffle_perm in Hx.
    by apply list_elem_of_filter in Hx as [? _].
  - unfold kept. rewrite length_take, shuffle_perm, <- length_non_markers_filter.
    lia.
  - unfold kept. set (sh := shuffle seed (filter (λ b, b ≠ None) l)).
    trans (non_markers sh).
    + rewrite <- (take_drop (Z.to_nat n) sh) at 2.
      unfold non_markers. rewrite omap_app. by apply submseteq_inserts_r.
    + apply Permutation_submseteq. rewrite <- (non_markers_filter l).
      unfold non_markers, sh. apply omap_Permutation, shuffle_perm.
Qed.

End SamplerFacts.






(** ** Properties of [BlockPathMap] *)

Section PathMap.

Implicit Types (paths : list string) (m : gmap Z string).

(** The keys of the map are the start indices of the paths scanned. *)
Lemma scan_inv paths mx m mx' m' :
  BlockPathMap.scan paths mx m = Ok (mx', m') →
  (∀ k, is_Some (m' !! k) ↔
     is_Some (m !! k) ∨ ∃ p e, p ∈ paths ∧ BlockPathMap.parse p = Ok (k, e)) ∧
  (∀ k p, m' !! k = Some p →
     m !! k = Some p ∨ ∃ e, p ∈ paths ∧ BlockPathMap.parse p = Ok (k, e)).
Proof.
  revert mx m. induction paths as [|p0 paths IH]; intros mx m; simpl.
  { intros [= <- <-]. split.
    - intros k. split; [by left|]. intros [?|(p & e & []%elem_of_nil & _)]. done.
    - intros k p ?. by left. }
  destruct (BlockPathMap.parse p0) as [[s0 e0]|] eqn:Hp0; [|done]. simpl.
  intros [Hkeys Hvals]%IH. split.
  - intros k. rewrite Hkeys. split.
    + intros [Hk|(p & e & Hp & Hpe)].
      * destruct (decide (s0 = k)) as [<-|Hne].
        -- right. exists p0, e0. split; [by left|done].
        -- left. by rewrite lookup_insert_ne in Hk.
      * right. exists p, e. split; [by right|done].
    + intros [Hk|(p & e & [->|Hp]%elem_of_cons & Hpe)].
      * left. destruct (decide (s0 = k)) as [<-|Hne].
        -- by rewrite lookup_insert_eq.
        -- by rewrite lookup_insert_ne.
      * left. rewrite Hp0 in Hpe. injection Hpe as <- <-.
        by rewrite lookup_insert_eq.
      * right. eauto.
  - intros k p [Hk|(e & Hp & Hpe)]%Hvals.
    + destruct (decide (s0 = k)) as [<-|Hne].
      * rewrite lookup_insert_eq in Hk. injection Hk as <-.
        right. exists e0. split; [by left|done].
      * left. by rewrite lookup_insert_ne in Hk.
    + right. exists e. split; [by right|done].
Qed.

Lemma scan_total paths mx m :
  (∀ p, p ∈ paths → ∃ r, BlockPathMap.parse p = Ok r) →
  ∃ mx' m', BlockPathMap.scan paths mx m = Ok (mx', m').
Proof.
  revert mx m. induction paths as [|p0 paths IH]; intros mx m Hall; simpl.
  { by eauto. }
  destruct (Hall p0) as [[s0 e0] ->]; [by left|]. simpl.
  apply IH. intros p Hp. apply Hall. by right.
Qed.

(** A lookup leaves the object as it is, and when [block_size] is not zero
    it is the lookup of [block_size * (idx // block_size)] in the map. *)
Lemma getitem_eq (self : BlockPathMap.t) idx :
  (BlockPathMap.getitem self idx).2 = self ∧
  (BlockPathMap.block_size self = 0 →
   (BlockPathMap.getitem self idx).1 = Raise ZeroDivisionError) ∧
  (BlockPathMap.block_size self ≠ 0 →
   (BlockPathMap.getitem self idx).1 =
     match BlockPathMap.block_path_map self
             !! (BlockPathMap.block_size self * (idx / BlockPathMap.block_size self)) with
     | Some block_path => Ok block_path
     | None => Raise KeyError
     end).
Proof.
  unfold BlockPathMap.getitem.
  destruct (Z.eqb_spec (BlockPathMap.block_size self) 0) as [Hz|Hnz].
  - split_and!; [done|done|]. by intros [].
  - split_and!.
    + by destruct (_ !! _).
    + by intros ?.
    + intros _. by destruct (_ !! _).
Qed.

End PathMap.

(** C6. For positive [n_samples] and [block_size], the map built from the
    sorted paths of the blocks that [get_blocks] computes sends every index
    of [[0, n_samples)] to the path of the block whose range holds it, and
    that block is the only one. *)
Theorem block_path_round_trip (project_dir : string) (n_samples block_size : Z) :
  0 < n_samples → 0 < block_size →
  ∃ bl self,
    all_blocks project_dir n_samples block_size = Ok bl ∧
    BlockPathMap.init (sorted (path <$> bl)) block_size = Ok self ∧
    ∀ idx, 0 ≤ idx < n_samples →
      ∃ b, b ∈ bl ∧ (range b).1 ≤ idx < (range b).2 ∧
           (BlockPathMap.getitem self idx).1 = Ok (path b) ∧
           ∀ b', b' ∈ bl → (range b').1 ≤ idx < (range b').2 → b' = b.
Proof.
  intros Hn Hs.
  destruct (all_blocks_ok project_dir n_samples block_size Hn Hs)
    as (rs & Hrs & Hbl).
  set (nd := ceil_log10 n_samples + 1) in *.
  destruct (all_blocks_paths _ _ _ _ Hbl) as [Hnd Hparse].
  assert (∀ p, p ∈ sorted (path <$> (block_of project_dir nd <$> rs)) ↔
               ∃ r, r ∈ rs ∧ p = path (block_of project_dir nd r)) as Hsorted.
  { intros p. unfold sorted. rewrite merge_sort_Permutation.
    rewrite <- list_fmap_compose, list_elem_of_fmap.
    split; intros (r' & ? & ?); exists r'; done. }
  destruct (scan_total (sorted (path <$> (block_of project_dir nd <$> rs))) 0 ∅)
    as (mx & m & Hscan).
  { intros p (r & Hr & ->)%Hsorted. exists r.
    rewrite (Hparse (block_of project_dir nd r)); [done|].
    apply list_elem_of_fmap. eauto. }
  exists (block_of project_dir nd <$> rs),
    {| BlockPathMap.max_idx := mx; BlockPathMap.block_path_map := m;
       BlockPathMap.block_size := block_size |}.
  split_and!; [done| |].
  { unfold BlockPathMap.init. by rewrite Hscan. }
  intros idx Hidx.
  pose proof (block_ranges_find n_samples block_size rs idx Hn Hs Hrs Hidx) as Hfind.
  set (start := block_size * (idx / block_size)) in *.
  set (r := (start, Z.min n_samples (start + block_size))) in *.
  assert (r ∈ rs) as Hr by (by eapply list_elem_of_lookup_2).
  assert (∀ r', r' ∈ rs → r'.1 ≤ idx < r'.2 → r' = r) as Honly.
  { intros r' [i Hi]%list_elem_of_lookup Hin.
    destruct (block_ranges_holds n_samples block_size rs i r' idx) as [Hq _];
      [done..|].
    replace (Z.to_nat (idx / block_size)) with i in Hfind by lia. congruence. }
  assert (∀ r', r' ∈ rs →
    BlockPathMap.parse (path (block_of project_dir nd r')) = Ok r') as Hparse'.
  { intros r' Hr'. rewrite (Hparse (block_of project_dir nd r')); [done|].
    apply list_elem_of_fmap. eauto. }
  destruct (scan_inv _ _ _ _ _ Hscan) as [Hkeys Hvals].
  assert (m !! start = Some (path (block_of project_dir nd r))) as Hm.
  { destruct (proj2 (Hkeys start)) as [p Hp].
    { right. exists (path (block_of project_dir nd r)), r.2.
      split; [apply Hsorted; eauto|]. by rewrite Hparse'. }
    rewrite Hp. f_equal.
    destruct (Hvals start p Hp) as [Hemp|(e & (r' & Hr' & ->)%Hsorted & Hpe)];
      [by rewrite lookup_empty in Hemp|].
    rewrite Hparse' in Hpe by done. injection Hpe as ->.
    do 2 f_equal.
    destruct (tiles_of_block_ranges n_samples block_size rs Hn Hs Hrs)
      as [_ _ _ Hb _ _ _].
    destruct (Hb (start, e) Hr') as (_ & Hlt & _). simpl in Hlt.
    apply Honly; [done|]. simpl.
    pose proof (Z.mul_div_le idx block_size Hs).
    destruct (list_elem_of_lookup_1 _ _ Hr') as [i Hi].
    apply (block_ranges_lookup n_samples block_size rs i _ Hn Hs Hrs) in Hi
      as [_ [= Hstart ->]].
    pose proof (Z.mul_succ_div_gt idx block_size Hs). unfold start in *. nia. }
  exists (block_of project_dir nd r). split_and!.
  - apply list_elem_of_fmap. eauto.
  - simpl. unfold start. pose proof (Z.mul_div_le idx block_size Hs). lia.
  - simpl. pose proof (Z.mul_succ_div_gt idx block_size Hs).
    unfold start. lia.
  - destruct (getitem_eq {| BlockPathMap.max_idx := mx;
                            BlockPathMap.block_path_map := m;
                            BlockPathMap.block_size := block_size |} idx)
      as (_ & _ & ->); simpl; [|lia]. fold start. by rewrite Hm.
  - intros b' (r' & -> & Hr')%list_elem_of_fmap Hin. simpl in Hin.
    by rewrite (Honly r' Hr' Hin).
Qed.

Lemma block_path_round_trip_witness :
  ∃ bl self,
    all_blocks "proj" 250 100 = Ok bl ∧
    BlockPathMap.init (sorted (path <$> bl)) 100 = Ok self ∧
    ∀ idx, 0 ≤ idx < 250 →
      ∃ b, b ∈ bl ∧ (range b).1 ≤ idx < (range b).2 ∧
           (BlockPathMap.getitem self idx).1 = Ok (path b) ∧
           ∀ b', b' ∈ bl → (range b').1 ≤ idx < (range b').2 → b' = b.
Proof. apply (block_path_round_trip "proj" 250 100); lia. Defined.

(** C8, as the code has it. On a map built by [__init__] with a
    [block_size] other than zero, a lookup is the lookup of
    [block_size * (idx // block_size)] in [block_path_map]; it raises
    [KeyError] exactly when no path scanned has that start index, and it
    leaves the object as it was. *)
Theorem getitem_lookup (block_paths : list string) (block_size : Z)
    (self : BlockPathMap.t) (idx : Z) :
  BlockPathMap.init block_paths block_size = Ok self →
  block_size ≠ 0 →
  let block_start := block_size * (idx / block_size) in
  (BlockPathMap.getitem self idx).1 =
    match BlockPathMap.block_path_map self !! block_start with
    | Some block_path => Ok block_path
    | None => Raise KeyError
    end ∧
  ((BlockPathMap.getitem self idx).1 = Raise KeyError ↔
   ¬ ∃ p e, p ∈ block_paths ∧ BlockPathMap.parse p = Ok (block_start, e)) ∧
  (BlockPathMap.getitem self idx).2 = self.
Proof.
  intros Hinit Hnz block_start. unfold BlockPathMap.init in Hinit.
  destruct (BlockPathMap.scan block_paths 0 ∅) as [[mx m]|] eqn:Hscan; [|done].
  injection Hinit as <-.
  destruct (scan_inv _ _ _ _ _ Hscan) as [Hkeys _].
  destruct (getitem_eq {| BlockPathMap.max_idx := mx;
                          BlockPathMap.block_path_map := m;
                          BlockPathMap.block_size := block_size |} idx)
    as (Hsame & _ & Hget).
  specialize (Hget Hnz). simpl in Hget. fold block_start in Hget.
  split_and!; [done| |done].
  rewrite Hget. specialize (Hkeys block_start).
  destruct (m !! block_start) as [p|].
  - split; [done|]. intros Hno. destruct Hno.
    destruct (proj1 Hkeys) as [[? Hemp]|?]; [by eexists| |done].
    by rewrite lookup_empty in Hemp.
  - split; [|done]. intros _ Hex.
    destruct (proj2 Hkeys) as [? ?]; [by right|done].
Qed.

Lemma getitem_lookup_witness :
  ∃ self,
    BlockPathMap.init ["proj/0000-0100.hdf5"; "proj/0200-0250.hdf5"]%string 100
      = Ok self ∧
    (BlockPathMap.getitem self 150).1 =
      match BlockPathMap.block_path_map self !! (100 * (150 / 100)) with
      | Some block_path => Ok block_path
      | None => Raise KeyError
      end ∧
    ((BlockPathMap.getitem self 150).1 = Raise KeyError ↔
     ¬ ∃ p e, p ∈ ["proj/0000-0100.hdf5"; "proj/0200-0250.hdf5"]%string ∧
              BlockPathMap.parse p = Ok (100 * (150 / 100), e)) ∧
    (BlockPathMap.getitem self 150).2 = self.
Proof.
  eexists. split; [reflexivity|].
  apply (getitem_lookup ["proj/0000-0100.hdf5"; "proj/0200-0250.hdf5"]%string 100);
    [reflexivity|lia].
Defined.

(** C8, as the specification words it, fails when [block_size] is zero:
    no path was scanned, so no block starts anywhere, yet the lookup does
    not raise [KeyError]: [idx // 0] raises [ZeroDivisionError] first. *)
Lemma getitem_lookup_zero_fails :
  ∃ self,
    BlockPathMap.init [] 0 = Ok self ∧
    BlockPathMap.block_path_map self = ∅ ∧
    (BlockPathMap.getitem self 5).1 = Raise ZeroDivisionError.
Proof. eexists. split_and!; reflexivity. Qed.

(** C10, as the code has it. The map built from no path at all is empty
    and has [max_idx = 0]; when [block_size] is not zero every lookup on it
    raises [KeyError], and leaves it as it was. *)
Theorem empty_map_lookup (block_size idx : Z) :
  block_size ≠ 0 →
  ∃ self,
    BlockPathMap.init [] block_size = Ok self ∧
    BlockPathMap.max_idx self = 0 ∧
    BlockPathMap.block_path_map self = ∅ ∧
    (BlockPathMap.getitem self idx).1 = Raise KeyError ∧
    (BlockPathMap.getitem self idx).2 = self.
Proof.
  intros Hnz. eexists. split; [reflexivity|]. split_and!; [done..| |].
  - unfold BlockPathMap.getitem. simpl.
    destruct (Z.eqb_spec block_size 0); [done|]. by rewrite lookup_empty.
  - unfold BlockPathMap.getitem. simpl.
    destruct (Z.eqb_spec block_size 0); [done|]. by rewrite lookup_empty.
Qed.

Lemma empty_map_lookup_witness :
  ∃ self,
    BlockPathMap.init [] 100 = Ok self ∧
    BlockPathMap.max_idx self = 0 ∧
    BlockPathMap.block_path_map self = ∅ ∧
    (BlockPathMap.getitem self 42).1 = Raise KeyError ∧
    (BlockPathMap.getitem self 42).2 = self.
Proof. apply (empty_map_lookup 100 42). lia. Defined.

(** C10, as the specification words it, fails when [block_size] is zero:
    the lookup on the empty map raises [ZeroDivisionError], not
    [KeyError]. *)
Lemma empty_map_lookup_zero_fails :
  ∃ self,
    BlockPathMap.init [] 0 = Ok self ∧
    BlockPathMap.max_idx self = 0 ∧
    (BlockPathMap.getitem self 0).1 = Raise ZeroDivisionError ∧
    (BlockPathMap.getitem self 0).1 ≠ Raise KeyError.
Proof. eexists. split_and!; [reflexivity..|done]. Qed.

(** * Further properties *)

(** ** Chunks, project paths and the blend *)

(** X1. [get_num_chunks_per_sample] returns exactly when [chunk_length] is
    not zero and divides [sample_length], and then the quotient times
    [chunk_length] is [sample_length]; a zero [chunk_length] is a
    [ZeroDivisionError], raised by the assertion's own [%], and a
    [chunk_length] that does not divide is an [AssertionError]. *)
Theorem num_chunks_exact sample_length chunk_length :
  match get_num_chunks_per_sample sample_length chunk_length with
  | Ok q => chunk_length ≠ 0 ∧ q * chunk_length = sample_length
  | Raise e =>
      (e = ZeroDivisionError ∧ chunk_length = 0) ∨
      (e = AssertionError ∧ chunk_length ≠ 0 ∧
       ∀ q, q * chunk_length ≠ sample_length)
  end.
Proof.
  unfold get_num_chunks_per_sample, Py.modulo, Py.floordiv.
  destruct (Z.eqb_spec chunk_length 0) as [->|Hnz]; simpl; [by left|].
  destruct (Z.eqb_spec (sample_length `mod` chunk_length) 0) as [Hz|Hr].
  - split; [done|]. apply Z.div_exact in Hz; lia.
  - right. split_and!; [done..|]. intros q <-. by rewrite Z_mod_mult in Hr.
Qed.

Section ProjectPaths.

Lemma parse_not_numeral dir name ext :
  lacks "/" name = true → lacks "." name = true → lacks "-" name = true →
  lacks "/" ext = true → lacks "." ext = true →
  name ≠ EmptyString → Py.int name = Raise ValueError →
  BlockPathMap.parse (os_path.join dir (name +:+ String "." ext)) = Raise ValueError.
Proof.
  intros Hsep Hdot Hdash Hsep' Hdot' Hne Hint. unfold BlockPathMap.parse.
  rewrite basename_join.
  2:{ unfold lacks in *. rewrite all_chars_app. cbn [all_chars].
      by rewrite Hsep, Hsep'. }
  rewrite splitext_stem by done. cbn [fst].
  rewrite split_lacks by done. simpl. by rewrite Hint.
Qed.

Lemma config_path_parse dir :
  BlockPathMap.parse (get_config_path dir) = Raise ValueError.
Proof. by apply (parse_not_numeral dir "config" "json"). Qed.

Lemma data_dir_parse dir :
  BlockPathMap.parse (get_gpt_data_dir dir) = Raise ValueError.
Proof.
  unfold BlockPathMap.parse, get_gpt_data_dir. by rewrite basename_join.
Qed.

End ProjectPaths.

(** X2. Whatever the project directory is called, with a separator at its
    end or without, the copy of the configuration and the data directory
    are its entries ["config.json"] and ["data"]; neither has the name of a
    block file, so the cleanup of [get_blocks] in that directory leaves
    both as they are. *)
Theorem project_entries project_dir :
  os_path.basename (get_config_path project_dir) = "config.json"%string ∧
  os_path.basename (get_gpt_data_dir project_dir) = "data"%string ∧
  ∀ (h5 : Type) (fs fs' : gmap string (file h5)) n_samples block_size validate b,
    get_blocks 0 fs project_dir n_samples block_size validate = Ok (fs', b) →
    fs' !! get_config_path project_dir = fs !! get_config_path project_dir ∧
    fs' !! get_gpt_data_dir project_dir = fs !! get_gpt_data_dir project_dir.
Proof.
  split_and!; [by apply basename_join..|].
  intros h5 fs fs' n s v b Hget.
  destruct (get_blocks_inv _ _ _ _ _ _ _ _ Hget) as (bl & Hbl & _).
  destruct (get_blocks_cleans _ _ _ _ _ _ _ Hget) as (_ & _ & Hout).
  destruct (all_blocks_paths _ _ _ _ Hbl) as [_ Hparse].
  split; apply (Hout bl); [done| |done|].
  - intros (d & Hd & Hin)%list_elem_of_fmap.
    specialize (Hparse d Hin). rewrite <- Hd, config_path_parse in Hparse. done.
  - intros (d & Hd & Hin)%list_elem_of_fmap.
    specialize (Hparse d Hin). rewrite <- Hd, data_dir_parse in Hparse. done.
Qed.

Section Blend.

Implicit Types (l : list string) (idxs : list Z).

Lemma getitem_setitem_in {A} (xs : list A) (i : Z) (y : A) :
  0 ≤ i < Z.of_nat (length xs) →
  Py.getitem xs i = xs !! Z.to_nat i ∧
  Py.setitem xs i y = Some (<[Z.to_nat i := y]> xs).
Proof.
  intros Hi. unfold Py.getitem, Py.setitem.
  destruct (Z.ltb_spec i 0); [lia|]. cbn zeta.
  destruct (Z.ltb_spec i 0); [lia|].
  destruct (Z.leb_spec 0 i); [|lia].
  by destruct (Z.ltb_spec i (Z.of_nat (length xs))); [|lia].
Qed.

(** The loop over indices in range, none twice, changes the entries at
    those indices and no other. *)
Lemma join_blend_ok data_dir idxs l :
  NoDup idxs → (∀ i, i ∈ idxs → 0 ≤ i < Z.of_nat (length l)) →
  ∃ l', join_blend data_dir idxs l = Some l' ∧ length l' = length l ∧
    ∀ (i : nat) x, l !! i = Some x →
      l' !! i = Some (if decide (Z.of_nat i ∈ idxs)
                      then os_path.join data_dir x else x).
Proof.
  intros Hnd. revert l. induction Hnd as [|j idxs Hj Hnd IH]; intros l Hin.
  { exists l. split_and!; [done..|]. intros i x Hx.
    rewrite decide_False; [done|]. by intros ?%elem_of_nil. }
  destruct (Hin j) as [Hj0 Hjl]; [by left|].
  destruct (lookup_lt_is_Some_2 l (Z.to_nat j)) as [y Hy]; [lia|].
  destruct (getitem_setitem_in l j (os_path.join data_dir y)) as [Hget Hset];
    [done|].
  simpl. rewrite Hget, Hy. simpl. rewrite Hset. simpl.
  destruct (IH (<[Z.to_nat j := os_path.join data_dir y]> l)) as (l' & -> & Hlen & Hl').
  { intros i Hi. rewrite length_insert. apply Hin. by right. }
  exists l'. split_and!; [done|by rewrite Hlen, length_insert|].
  intros i x Hx. destruct (decide (i = Z.to_nat j)) as [->|Hne].
  - rewrite (Hl' _ (os_path.join data_dir y)).
    2:{ rewrite list_lookup_insert_eq; [done|lia]. }
    rewrite Z2Nat.id by lia. rewrite decide_False by done.
    rewrite decide_True by (by left). congruence.
  - rewrite (Hl' _ x) by (by rewrite list_lookup_insert_ne).
    f_equal. destruct (decide (Z.of_nat i ∈ idxs)) as [Hi|Hi].
    + rewrite decide_True; [done|by right].
    + rewrite decide_False; [done|].
      intros [?|?]%elem_of_cons; [lia|done].
Qed.

(** [range(n - 1, -1, -2)]: from the last index down, every other one. *)
Lemma range_down_by_two (n : nat) :
  ∃ idxs, Py.range (Z.of_nat n - 1) (-1) (-2) = Ok idxs ∧ NoDup idxs ∧
    ∀ i, i ∈ idxs ↔ 0 ≤ i < Z.of_nat n ∧ Z.even (Z.of_nat n - 1 - i) = true.
Proof.
  unfold Py.range. simpl. eexists. split; [done|].
  set (m := Py.range_length (Z.of_nat n - 1) (-1) (-2)).
  assert (m = Z.of_nat n / 2 + Z.of_nat n `mod` 2) as Hm.
  { unfold m, Py.range_length. simpl.
    destruct (Z.ltb_spec (-1) (Z.of_nat n - 1)) as [Hpos|Hz].
    - replace (Z.of_nat n - 1 - -1 - 1) with (Z.of_nat n - 1) by lia.
      pose proof (Z.div_mod (Z.of_nat n) 2 ltac:(lia)).
      pose proof (Z.mod_pos_bound (Z.of_nat n) 2 ltac:(lia)).
      change (- (-2)) with 2.
      rewrite <- (Z.div_unique (Z.of_nat n - 1) 2
        (Z.of_nat n / 2 + Z.of_nat n `mod` 2 - 1) (1 - Z.of_nat n `mod` 2)); lia.
    - by assert (n = 0%nat) as -> by lia. }
  pose proof (Z.div_mod (Z.of_nat n) 2 ltac:(lia)) as Hdm.
  pose proof (Z.mod_pos_bound (Z.of_nat n) 2 ltac:(lia)) as Hmb.
  split.
  - apply NoDup_fmap_2_strong; [|apply NoDup_seqZ]. intros x y _ _ ?. lia.
  - intros i. rewrite list_elem_of_fmap. split.
    + intros (k & -> & [Hk0 Hk]%elem_of_seqZ). split; [lia|].
      replace (Z.of_nat n - 1 - (Z.of_nat n - 1 + k * -2)) with (2 * k) by lia.
      apply Z.even_spec. by exists k.
    + intros [Hi [k Hk]%Z.even_spec]. exists k. split; [lia|].
      apply elem_of_seqZ. lia.
Qed.

Lemma endswith_app c s t :
  t ≠ EmptyString → Py.endswith c (s +:+ t) = Py.endswith c t.
Proof.
  intros Ht. induction s as [|a s IH]; [done|].
  rewrite string_app_cons. cbn [Py.endswith]. rewrite IH.
  destruct (s +:+ t) eqn:Hst; [|done].
  destruct s; [|done]. by rewrite string_app_empty in Hst.
Qed.

(** The data directory is a name that [os.path.join] puts a separator
    behind. *)
Lemma join_data_dir dir p :
  os_path.join (get_gpt_data_dir dir) p =
    if Py.startswith "/" p then p else get_gpt_data_dir dir +:+ "/" +:+ p.
Proof.
  unfold os_path.join at 1. destruct (Py.startswith "/" p); [done|].
  assert (∃ s, get_gpt_data_dir dir = s +:+ "data") as [s ->].
  { unfold get_gpt_data_dir, os_path.join. simpl.
    destruct (_ || _)%bool; [by eexists|].
    exists (dir +:+ "/"). by rewrite string_app_assoc. }
  rewrite endswith_app by done.
  destruct (String.eqb_spec (s +:+ "data") EmptyString) as [Hnil|_]; [|done].
  by destruct s.
Qed.

(** What the function returns, entry by entry of the blend. *)
Lemma core_config_blend {seed_t length_t split_t cache_t built_t : Type}
    (config : @RetroPreprocessingConfig seed_t length_t split_t cache_t)
    (built : built_t) :
  ∃ l',
    core_gpt_dataset_config_from_retro_preprocessing_config config built =
      Some {| is_built_on_rank := built;
              random_seed := retro_gpt_seed config;
              sequence_length := retro_gpt_seq_length config;
              blend := l';
              split := retro_gpt_split config;
              path_to_cache := retro_gpt_data_cache_path config;
              return_document_ids := true |} ∧
    length l' = length (retro_gpt_data_path config) ∧
    ∀ (i : nat) x, retro_gpt_data_path config !! i = Some x →
      l' !! i =
        Some (if Z.even (Z.of_nat (length (retro_gpt_data_path config)) - 1 - Z.of_nat i)
              then os_path.join (get_gpt_data_dir (retro_project_dir config)) x
              else x).
Proof.
  unfold core_gpt_dataset_config_from_retro_preprocessing_config.
  destruct (range_down_by_two (length (retro_gpt_data_path config)))
    as (idxs & -> & Hnd & Hidxs).
  destruct (join_blend_ok (get_gpt_data_dir (retro_project_dir config)) idxs
              (retro_gpt_data_path config) Hnd) as (l' & -> & Hlen & Hl').
  { intros i Hi. by apply Hidxs. }
  exists l'. split; [done|]. split; [done|].
  intros i x Hx. rewrite (Hl' i x Hx). f_equal.
  apply lookup_lt_Some in Hx.
  destruct (Z.even _) eqn:Hev.
  - rewrite decide_True; [done|]. apply Hidxs. split; [lia|done].
  - rewrite decide_False; [done|]. intros [_ ?]%Hidxs. congruence.
Qed.

End Blend.


(** X4. In a blend of weights and paths, weight first, the weights stay as
    they are and each path moves under the data directory: a relative path
    [p] becomes [<data dir>/p], whether or not the project directory ends in
    a separator, and an absolute path stays where it is. *)
Theorem blend_weights_kept {seed_t length_t split_t cache_t built_t : Type}
    (config : @RetroPreprocessingConfig seed_t length_t split_t cache_t)
    (is_dataset_built_on_rank : built_t) :
  Nat.Even (length (retro_gpt_data_path config)) →
  ∃ cfg,
    core_gpt_dataset_config_from_retro_preprocessing_config
      config is_dataset_built_on_rank = Some cfg ∧
    ∀ (k : nat) weight p,
      retro_gpt_data_path config !! (2 * k)%nat = Some weight →
      retro_gpt_data_path config !! (2 * k + 1)%nat = Some p →
      blend cfg !! (2 * k)%nat = Some weight ∧
      blend cfg !! (2 * k + 1)%nat =
        Some (if Py.startswith "/" p then p
              else get_gpt_data_dir (retro_project_dir config) +:+ "/" +:+ p).
Proof.
  intros [h Hh].
  destruct (core_config_blend config is_dataset_built_on_rank)
    as (l' & -> & Hlen & Hl').
  eexists. split; [done|]. cbn [blend]. intros k weight p Hw Hp.
  rewrite (Hl' _ _ Hw), (Hl' _ _ Hp), Hh.
  apply lookup_lt_Some in Hp. rewrite Hh in Hp.
  assert (Z.even (Z.of_nat (2 * h) - 1 - Z.of_nat (2 * k)) = false) as ->.
  { apply not_true_is_false. intros [q Hq]%Z.even_spec. lia. }
  assert (Z.even (Z.of_nat (2 * h) - 1 - Z.of_nat (2 * k + 1)) = true) as ->.
  { apply Z.even_spec. exists (Z.of_nat h - Z.of_nat k - 1). lia. }
  by rewrite join_data_dir.
Qed.

Lemma blend_weights_kept_witness :
  ∃ cfg,
    core_gpt_dataset_config_from_retro_preprocessing_config
      {| retro_project_dir := "proj/";
         retro_gpt_data_path := ["0.3"; "wiki"; "0.7"; "/corpora/books"]%string;
         retro_gpt_seed := 1234; retro_gpt_seq_length := 2048;
         retro_gpt_split := "98,2,0"%string;
         retro_gpt_data_cache_path := @None string |} true = Some cfg ∧
    ∀ (k : nat) weight p,
      ["0.3"; "wiki"; "0.7"; "/corpora/books"]%string !! (2 * k)%nat = Some weight →
      ["0.3"; "wiki"; "0.7"; "/corpora/books"]%string !! (2 * k + 1)%nat = Some p →
      blend cfg !! (2 * k)%nat = Some weight ∧
      blend cfg !! (2 * k + 1)%nat =
        Some (if Py.startswith "/" p then p
              else get_gpt_data_dir "proj/" +:+ "/" +:+ p).
Proof.
  apply (blend_weights_kept
    {| retro_project_dir := "proj/";
       retro_gpt_data_path := ["0.3"; "wiki"; "0.7"; "/corpora/books"]%string;
       retro_gpt_seed := 1234; retro_gpt_seq_length := 2048;
       retro_gpt_split := "98,2,0"%string;
       retro_gpt_data_cache_path := @None string |} true).
  exists 2%nat. reflexivity.
Defined.

Example blend_proj :
  blend <$> core_gpt_dataset_config_from_retro_preprocessing_config
    {| retro_project_dir := "proj/";
       retro_gpt_data_path := ["0.3"; "wiki"; "0.7"; "/corpora/books"]%string;
       retro_gpt_seed := 1234; retro_gpt_seq_length := 2048;
       retro_gpt_split := "98,2,0"%string;
       retro_gpt_data_cache_path := @None string |} true
  = Some ["0.3"; "proj/data/wiki"; "0.7"; "/corpora/books"]%string.
Proof. reflexivity. Qed.

(** ** More on the scan *)

Section ScanOutcome.

Context {h5 : Type}.
Implicit Types (fs : gmap string (file h5)) (paths : list string).
Implicit Types (validate : h5 → result ()) (known : gset string).

Lemma lookup_cleaned validate paths fs p :
  cleaned validate paths fs !! p =
    match fs !! p with
    | Some x => if decide (p ∈ paths → kept validate x = true) then Some x else None
    | None => None
    end.
Proof.
  unfold cleaned. rewrite map_lookup_filter.
  destruct (fs !! p) as [x|]; [|done]. simpl.
  destruct (decide (p ∈ paths → kept validate x = true)).
  - by rewrite option_guard_True.
  - by rewrite option_guard_False.
Qed.

(** One turn of the loop keeps the file or removes it. *)
Lemma validate_block_exact known validate fs p x :
  p ∈ known → fs !! p = Some x →
  validate_block known validate fs p =
    Ok (if kept validate x then fs else delete p fs).
Proof.
  intros Hk Hx. unfold validate_block, h5py_File, os_remove.
  rewrite decide_True by done. rewrite Hx.
  destruct x as [|f]; [done|]. simpl. by destruct (validate f) as [[]|].
Qed.

(** The loop removes the files that are not kept, and nothing else. *)
Lemma validate_blocks_exact known validate fs paths :
  NoDup paths →
  (∀ p, p ∈ paths → p ∈ known ∧ is_Some (fs !! p)) →
  validate_blocks known validate fs paths = Ok (cleaned validate paths fs).
Proof.
  intros Hnd. revert fs.
  induction Hnd as [|p paths Hp Hnd IH]; intros fs Hin.
  { cbn [validate_blocks]. f_equal. apply map_eq. intros q.
    rewrite lookup_cleaned. destruct (fs !! q) as [x|]; [|done].
    rewrite decide_True; [done|]. by intros ?%elem_of_nil. }
  destruct (Hin p) as [Hk [x Hx]]; [by left|].
  cbn [validate_blocks].
  rewrite (validate_block_exact known validate fs p x) by done.
  change (Ok ?a ≫= ?f) with (f a). cbv beta.
  rewrite IH.
  2:{ intros q Hq. destruct (Hin q) as [? ?]; [by right|]. split; [done|].
      destruct (kept validate x); [done|]. rewrite lookup_delete_ne; [done|].
      by intros ->. }
  f_equal. apply map_eq. intros q. rewrite !lookup_cleaned.
  destruct (decide (q = p)) as [->|Hne].
  - rewrite Hx. destruct (kept validate x) eqn:Hkept.
    + rewrite Hx. by rewrite !decide_True.
    + rewrite lookup_delete_eq. rewrite decide_False; [done|].
      intros Himp. specialize (Himp ltac:(by left)). congruence.
  - assert ((if kept validate x then fs else delete p fs) !! q = fs !! q) as ->.
    { destruct (kept validate x); [done|]. by rewrite lookup_delete_ne. }
    destruct (fs !! q) as [y|]; [|done].
    destruct (decide (q ∈ paths → kept validate y = true)) as [Hy|Hy].
    + rewrite decide_True; [done|].
      intros [?|?]%elem_of_cons; [done|by apply Hy].
    + rewrite decide_False; [done|]. intros Himp. apply Hy. intros ?.
      apply Himp. by right.
Qed.

(** On rank 0 the directory comes back without the block files that are
    not kept. *)
Lemma get_blocks_rank_0 fs dir n s (v : option (h5 → result ())) bl :
  all_blocks dir n s = Ok bl →
  let fs' := cleaned (default (λ _, Ok ()) v) (path <$> bl) fs in
  get_blocks 0 fs dir n s v = Ok (fs', collect fs' bl).
Proof.
  intros Hbl fs'. unfold get_blocks. rewrite Hbl. simpl.
  rewrite validate_blocks_exact.
  - simpl. assert (cleaned (default (λ _, Ok ()) v)
      (path <$> filter (λ b, os_path_exists fs (path b)) bl) fs = fs') as ->;
      [|done].
    apply map_eq. intros p. unfold fs'. rewrite !lookup_cleaned.
    destruct (fs !! p) as [x|] eqn:Hx; [|done].
    assert (p ∈ path <$> filter (λ b, os_path_exists fs (path b)) bl
            ↔ p ∈ path <$> bl) as Hiff.
    { rewrite !list_elem_of_fmap. split.
      - intros (b & -> & [_ Hb]%list_elem_of_filter). eauto.
      - intros (b & -> & Hb). exists b. split; [done|].
        apply list_elem_of_filter. split; [|done]. by eexists. }
    destruct (decide (p ∈ path <$> bl → _)) as [Hy|Hy].
    + rewrite decide_True; [done|]. intros ?%Hiff. by apply Hy.
    + rewrite decide_False; [done|]. intros Himp. apply Hy. intros ?%Hiff.
      by apply Himp.
  - destruct (all_blocks_paths _ _ _ _ Hbl) as [Hnd _].
    eapply sublist_NoDup; [done|]. apply fmap_sublist, sublist_filter.
  - intros p (b & -> & [Hex Hb]%list_elem_of_filter)%list_elem_of_fmap.
    split; [|done]. apply elem_of_list_to_set, list_elem_of_fmap. eauto.
Qed.

(** Cleaning a cleaned directory changes nothing. *)
Lemma cleaned_idemp validate paths fs :
  cleaned validate paths (cleaned validate paths fs) = cleaned validate paths fs.
Proof.
  apply map_eq. intros p. rewrite !lookup_cleaned.
  destruct (fs !! p) as [x|]; [|done].
  destruct (decide _) as [Hy|Hy]; [|done]. by rewrite decide_True.
Qed.

Lemma all_blocks_outcome dir n s :
  match all_blocks dir n s with
  | Ok bl => 0 < n ∧ s ≠ 0 ∧ (s < 0 → bl = [])
  | Raise e =>
      (e = ValueError ∧ (s = 0 ∨ n < 0)) ∨ (e = OverflowError ∧ n = 0 ∧ s ≠ 0)
  end.
Proof.
  unfold all_blocks, block_ranges, Py.range, n_digits.
  destruct (Z.eqb_spec s 0) as [->|Hs]; simpl; [left; auto|].
  destruct (Z.eqb_spec n 0) as [->|Hn]; simpl; [right; auto|].
  destruct (Z.ltb_spec n 0); simpl; [left; auto|].
  split_and!; [lia|done|]. intros Hneg. unfold Py.range_length.
  destruct (Z.ltb_spec 0 s); [lia|]. by destruct (Z.ltb_spec n 0); [lia|].
Qed.

End ScanOutcome.


(** X6. On rank 0, [get_blocks] leaves the directory without the block
    files that do not open or do not pass [validate], and otherwise as it
    found it; the blocks it calls existing are those whose file was there
    and is kept. *)
Theorem get_blocks_cleanup {h5 : Type} (fs : gmap string (file h5))
    (project_dir : string) (n_samples block_size : Z)
    (validate : option (h5 → result ())) (bl : list block) :
  all_blocks project_dir n_samples block_size = Ok bl →
  ∃ fs' blocks,
    get_blocks 0 fs project_dir n_samples block_size validate = Ok (fs', blocks) ∧
    fs' = cleaned (default (λ _, Ok ()) validate) (path <$> bl) fs ∧
    (∀ p, p ∉ path <$> bl → fs' !! p = fs !! p) ∧
    (∀ b, b ∈ bl →
       fs' !! path b =
         match fs !! path b with
         | Some x => if kept (default (λ _, Ok ()) validate) x then Some x else None
         | None => None
         end) ∧
    (∀ b, b ∈ Blocks.existing blocks ↔
       b ∈ bl ∧ ∃ x, fs !! path b = Some x ∧
                     kept (default (λ _, Ok ()) validate) x = true).
Proof.
  intros Hbl. do 2 eexists. split; [by apply get_blocks_rank_0|].
  split; [done|]. split_and!.
  - intros p Hp. rewrite lookup_cleaned. destruct (fs !! p); [|done].
    by rewrite decide_True.
  - intros b Hb. rewrite lookup_cleaned. destruct (fs !! path b) as [x|]; [|done].
    assert (path b ∈ path <$> bl) as Hpb by (apply list_elem_of_fmap; eauto).
    destruct (kept _ x) eqn:Hk.
    + by rewrite decide_True.
    + rewrite decide_False; [done|]. intros Himp. specialize (Himp Hpb).
      congruence.
  - intros b. simpl. rewrite list_elem_of_filter. unfold os_path_exists.
    rewrite lookup_cleaned. split.
    + intros [[x Hx] Hb]. split; [done|]. revert Hx.
      destruct (fs !! path b) as [y|]; [|done].
      destruct (decide _) as [Hy|]; [|done]. intros _. exists y. split; [done|].
      apply Hy, list_elem_of_fmap. eauto.
    + intros (Hb & x & -> & Hk). split; [|done].
      rewrite decide_True; [by eexists|done].
Qed.

Lemma get_blocks_cleanup_witness :
  ∃ fs' blocks,
    get_blocks 0 some_dir "proj" 250 100 None = Ok (fs', blocks) ∧
    fs' = cleaned (default (λ _, Ok ()) None)
            (path <$> [Block (0, 100) "proj/0000-0100.hdf5";
                       Block (100, 200) "proj/0100-0200.hdf5";
                       Block (200, 250) "proj/0200-0250.hdf5"]) some_dir ∧
    (∀ p, p ∉ path <$> [Block (0, 100) "proj/0000-0100.hdf5";
                        Block (100, 200) "proj/0100-0200.hdf5";
                        Block (200, 250) "proj/0200-0250.hdf5"] →
          fs' !! p = some_dir !! p) ∧
    (∀ b, b ∈ [Block (0, 100) "proj/0000-0100.hdf5";
               Block (100, 200) "proj/0100-0200.hdf5";
               Block (200, 250) "proj/0200-0250.hdf5"] →
       fs' !! path b =
         match some_dir !! path b with
         | Some x => if kept (default (λ _, Ok ()) None) x then Some x else None
         | None => None
         end) ∧
    (∀ b, b ∈ Blocks.existing blocks ↔
       b ∈ [Block (0, 100) "proj/0000-0100.hdf5";
            Block (100, 200) "proj/0100-0200.hdf5";
            Block (200, 250) "proj/0200-0250.hdf5"] ∧
       ∃ x, some_dir !! path b = Some x ∧ kept (default (λ _, Ok ()) None) x = true).
Proof. apply (get_blocks_cleanup some_dir "proj" 250 100 None). reflexivity. Defined.

(** X7. Once rank 0 has returned from [get_blocks], a call on the
    directory it left, on any rank and rank 0 among them, removes nothing
    and returns the same two lists: the ranks agree behind the barrier, and
    a second scan finds nothing more to clean. *)
Theorem get_blocks_settled {h5 : Type} (fs fs' : gmap string (file h5))
    (project_dir : string) (n_samples block_size : Z)
    (validate : option (h5 → result ())) (blocks : Blocks.t) :
  get_blocks 0 fs project_dir n_samples block_size validate = Ok (fs', blocks) →
  ∀ rank,
    get_blocks rank fs' project_dir n_samples block_size validate = Ok (fs', blocks).
Proof.
  intros Hget rank.
  destruct (get_blocks_inv _ _ _ _ _ _ _ _ Hget) as (bl & Hbl & ->).
  pose proof (get_blocks_rank_0 fs project_dir n_samples block_size validate bl Hbl)
    as Hzero. simpl in Hzero. rewrite Hget in Hzero. injection Hzero as Hfs'.
  destruct (Z.eqb_spec rank 0) as [->|Hr].
  - rewrite (get_blocks_rank_0 fs' project_dir n_samples block_size validate bl Hbl).
    by rewrite Hfs', cleaned_idemp.
  - unfold get_blocks. rewrite Hbl. simpl. by destruct (Z.eqb_spec rank 0).
Qed.

Lemma get_blocks_settled_witness :
  get_blocks 3 {[ "proj/0000-0100.hdf5"%string := Hdf5 () ]} "proj" 250 100 None
  = Ok ({[ "proj/0000-0100.hdf5"%string := Hdf5 () ]},
        {| Blocks.existing := [Block (0, 100) "proj/0000-0100.hdf5"];
           Blocks.missing := [Block (100, 200) "proj/0100-0200.hdf5";
                              Block (200, 250) "proj/0200-0250.hdf5"] |}).
Proof.
  apply (get_blocks_settled some_dir _ "proj" 250 100 None). by vm_compute.
Defined.

Section Filters.

Context {A : Type} (P : A → Prop) `{!∀ x, Decision (P x)}.

Lemma filter_all (l : list A) : (∀ x, x ∈ l → P x) → filter P l = l.
Proof.
  induction l as [|x l IH]; intros Hall; [done|].
  rewrite filter_cons_True by (apply Hall; by left). f_equal.
  apply IH. intros y Hy. apply Hall. by right.
Qed.

Lemma filter_none (l : list A) : (∀ x, x ∈ l → ¬ P x) → filter P l = [].
Proof.
  induction l as [|x l IH]; intros Hall; [done|].
  rewrite filter_cons_False by (apply Hall; by left).
  apply IH. intros y Hy. apply Hall. by right.
Qed.

End Filters.

(** X8. For positive [n_samples] and [block_size] the two lists of
    [get_blocks] hold [ceil(n_samples / block_size)] blocks between them,
    on every rank and whatever the directory holds; in an empty directory
    nothing exists and every block is missing. *)
Theorem get_blocks_count {h5 : Type} (rank : Z) (fs : gmap string (file h5))
    (project_dir : string) (n_samples block_size : Z)
    (validate : option (h5 → result ())) :
  0 < n_samples → 0 < block_size →
  ∃ fs' blocks bl,
    get_blocks rank fs project_dir n_samples block_size validate = Ok (fs', blocks) ∧
    all_blocks project_dir n_samples block_size = Ok bl ∧
    Z.of_nat (length (Blocks.existing blocks) + length (Blocks.missing blocks))
      = n_blocks n_samples block_size ∧
    (n_blocks n_samples block_size - 1) * block_size < n_samples
      ≤ n_blocks n_samples block_size * block_size ∧
    (fs = ∅ → fs' = ∅ ∧ Blocks.existing blocks = [] ∧ Blocks.missing blocks = bl).
Proof.
  intros Hn Hs.
  destruct (get_blocks_ok rank fs project_dir n_samples block_size validate Hn Hs)
    as (fs' & bl & Hbl & Hget).
  exists fs', (collect fs' bl), bl.
  split; [done|]. split; [done|]. split; [|split].
  - simpl. rewrite <- length_app, filter_app_complement.
    destruct (all_blocks_ok project_dir n_samples block_size Hn Hs)
      as (rs & Hrs & Hbl').
    rewrite Hbl in Hbl'. injection Hbl' as ->. rewrite length_fmap.
    by apply block_ranges_length.
  - by apply n_blocks_bounds.
  - intros ->. assert (fs' = ∅) as ->.
    { destruct (Z.eqb_spec rank 0) as [->|Hr].
      - destruct (get_blocks_cleans _ _ _ _ _ _ _ Hget) as (_ & Hsame & _).
        apply map_empty. intros p. destruct (fs' !! p) eqn:Hp; [|done].
        rewrite Hsame in Hp by (by eexists). by rewrite lookup_empty in Hp.
      - unfold get_blocks in Hget. rewrite Hbl in Hget. simpl in Hget.
        destruct (Z.eqb_spec rank 0); [done|]. by injection Hget as <-. }
    split; [done|]. simpl. split.
    + apply filter_none. intros b _ [x Hx]. by rewrite lookup_empty in Hx.
    + apply filter_all. intros b _ [x Hx]. by rewrite lookup_empty in Hx.
Qed.

Lemma get_blocks_count_witness :
  ∃ fs' blocks bl,
    get_blocks 0 some_dir "proj" 250 100 None = Ok (fs', blocks) ∧
    all_blocks "proj" 250 100 = Ok bl ∧
    Z.of_nat (length (Blocks.existing blocks) + length (Blocks.missing blocks))
      = n_blocks 250 100 ∧
    (n_blocks 250 100 - 1) * 100 < 250 ≤ n_blocks 250 100 * 100 ∧
    (some_dir = ∅ → fs' = ∅ ∧ Blocks.existing blocks = [] ∧ Blocks.missing blocks = bl).
Proof. apply (get_blocks_count 0 some_dir "proj" 250 100 None); lia. Defined.



(** ** More on [BlockPathMap] *)

Section PathMapOutcome.

Implicit Types (paths : list string) (m : gmap Z string).

Lemma mapM_raise {A B} (f : A → result B) (xs : list A) e :
  mapM f xs = Raise e → ∃ x, x ∈ xs ∧ f x = Raise e.
Proof.
  induction xs as [|x xs IH]; [done|]. simpl.
  destruct (f x) as [y|e'] eqn:Hx; simpl.
  - destruct (mapM f xs) as [ys|e'']; [done|]. simpl. intros [= ->].
    destruct IH as (z & Hz & Hfz); [done|]. exists z. split; [by right|done].
  - intros [= ->]. exists x. split; [by left|done].
Qed.

(** A name that does not parse is a [ValueError], of [int] or of the
    unpacking. *)
Lemma parse_raises p e : BlockPathMap.parse p = Raise e → e = ValueError.
Proof.
  unfold BlockPathMap.parse.
  destruct (mapM Py.int _) as [idxs|e'] eqn:Hm; simpl.
  - destruct idxs as [|a [|b [|c idxs]]]; by intros [= <-].
  - intros [= ->]. apply mapM_raise in Hm as (x & _ & Hx).
    unfold Py.int in Hx. destruct (NilZero.uint_of_string x); by simplify_eq.
Qed.

Lemma scan_outcome paths mx m :
  match BlockPathMap.scan paths mx m with
  | Ok (mx', m') =>
      (∀ p, p ∈ paths → ∃ r, BlockPathMap.parse p = Ok r) ∧
      mx ≤ mx' ∧
      (∀ p r, p ∈ paths → BlockPathMap.parse p = Ok r → r.2 ≤ mx') ∧
      (mx' = mx ∨ ∃ p r, p ∈ paths ∧ BlockPathMap.parse p = Ok r ∧ r.2 = mx')
  | Raise e =>
      e = ValueError ∧ ∃ p, p ∈ paths ∧ BlockPathMap.parse p = Raise ValueError
  end.
Proof.
  revert mx m. induction paths as [|p0 paths IH]; intros mx m.
  { simpl. split_and!; [by intros ? ?%elem_of_nil|done| |by left].
    by intros ? ? ?%elem_of_nil. }
  cbn [BlockPathMap.scan].
  destruct (BlockPathMap.parse p0) as [[s0 e0]|e] eqn:Hp0.
  - change (Ok (s0, e0) ≫= ?f) with (f (s0, e0)). cbv beta iota.
    specialize (IH (Z.max mx e0) (<[s0 := p0]> m)).
    destruct (BlockPathMap.scan paths (Z.max mx e0) (<[s0 := p0]> m))
      as [[mx' m']|e].
    + destruct IH as (Hall & Hle & Hends & Hmax). split_and!.
      * intros p [->|Hp]%elem_of_cons; [by eexists|by apply Hall].
      * lia.
      * intros p r [->|Hp]%elem_of_cons Hr; [|by eapply Hends].
        rewrite Hp0 in Hr. injection Hr as <-. simpl. lia.
      * destruct Hmax as [->|(p & r & Hp & Hr & <-)].
        -- destruct (Z.max_spec mx e0) as [[_ ->]|[_ ->]]; [|by left].
           right. exists p0, (s0, e0). split; [by left|done].
        -- right. exists p, r. split; [by right|done].
    + destruct IH as (-> & p & Hp & Hr). split; [done|].
      exists p. split; [by right|done].
  - simpl. pose proof (parse_raises _ _ Hp0) as ->. split; [done|].
    exists p0. split; [by left|done].
Qed.

(** Of the paths with one start index the last one scanned is in the map. *)
Lemma scan_last paths mx m mx' m' k :
  BlockPathMap.scan paths mx m = Ok (mx', m') →
  m' !! k =
    match last (filter (λ p, start_of p = Some k) paths) with
    | Some p => Some p
    | None => m !! k
    end.
Proof.
  revert mx m. induction paths as [|p0 paths IH]; intros mx m.
  { by intros [= <- <-]. }
  cbn [BlockPathMap.scan].
  destruct (BlockPathMap.parse p0) as [[s0 e0]|e] eqn:Hp0; [|done].
  change (Ok (s0, e0) ≫= ?f) with (f (s0, e0)). cbv beta iota.
  intros Hscan. rewrite (IH _ _ Hscan).
  assert (start_of p0 = Some s0) as Hs0 by (unfold start_of; by rewrite Hp0).
  destruct (decide (s0 = k)) as [<-|Hne].
  - rewrite filter_cons_True by done. rewrite lookup_insert_eq.
    by destruct (filter _ paths) as [|? ?] eqn:Hf using rev_ind;
      [|rewrite app_comm_cons, !last_snoc].
  - rewrite filter_cons_False by congruence. by rewrite lookup_insert_ne.
Qed.

End PathMapOutcome.


(** X11. When two paths have the same start index, the one that comes
    later in [block_paths] is the one in the map: every key holds the last
    path scanned with that start index, and a key that no path has is not in
    the map. *)
Theorem init_last_wins (block_paths : list string) (block_size : Z)
    (self : BlockPathMap.t) (k : Z) :
  BlockPathMap.init block_paths block_size = Ok self →
  BlockPathMap.block_path_map self !! k =
    last (filter (λ p, start_of p = Some k) block_paths).
Proof.
  unfold BlockPathMap.init.
  destruct (BlockPathMap.scan block_paths 0 ∅) as [[mx m]|e] eqn:Hscan; [|done].
  intros [= <-]. simpl. rewrite (scan_last _ _ _ _ _ k Hscan).
  rewrite lookup_empty. by destruct (last _).
Qed.

Lemma init_last_wins_witness :
  ∃ self,
    BlockPathMap.init ["old/000-100.hdf5"; "new/000-050.hdf5"]%string 100 = Ok self ∧
    BlockPathMap.block_path_map self !! 0 = Some "new/000-050.hdf5"%string ∧
    BlockPathMap.max_idx self = 100.
Proof.
  eexists. split; [reflexivity|]. split; [|reflexivity].
  rewrite (init_last_wins ["old/000-100.hdf5"; "new/000-050.hdf5"]%string 100 _ 0);
    reflexivity.
Defined.

Section BlockMaps.

Implicit Types (bl sub : list block) (listing : list string).

(** A block is known by its start index. *)
Lemma block_same_start dir n s bl b b' :
  0 < n → 0 < s → all_blocks dir n s = Ok bl →
  b ∈ bl → b' ∈ bl → (range b).1 = (range b').1 → b = b'.
Proof.
  intros Hn Hs Hbl Hb Hb' Hstart.
  destruct (all_blocks_inv _ _ _ _ Hbl) as (_ & rs & Hrs & -> & _ & _).
  apply list_elem_of_fmap in Hb as (r & -> & [i Hr]%list_elem_of_lookup).
  apply list_elem_of_fmap in Hb' as (r' & -> & [i' Hr']%list_elem_of_lookup).
  apply (block_ranges_lookup n s rs _ _ Hn Hs Hrs) in Hr as [_ ->].
  apply (block_ranges_lookup n s rs _ _ Hn Hs Hrs) in Hr' as [_ ->].
  simpl in Hstart. assert (i = i') as -> by nia. done.
Qed.

(** The block that holds [idx] starts at [block_size * (idx // block_size)]. *)
Lemma block_start dir n s bl b idx :
  0 < n → 0 < s → all_blocks dir n s = Ok bl →
  b ∈ bl → (range b).1 ≤ idx < (range b).2 → (range b).1 = s * (idx / s).
Proof.
  intros Hn Hs Hbl Hb Hidx.
  destruct (all_blocks_inv _ _ _ _ Hbl) as (_ & rs & Hrs & -> & _ & _).
  apply list_elem_of_fmap in Hb as (r & -> & [i Hr]%list_elem_of_lookup).
  simpl in *.
  destruct (block_ranges_holds n s rs i r idx Hn Hs Hrs Hr Hidx) as [Hi _].
  apply (block_ranges_lookup n s rs _ _ Hn Hs Hrs) in Hr as [_ ->].
  simpl. lia.
Qed.

(** The map of a directory that lists some of the blocks, in any order. *)
Lemma from_dir_blocks dir n s bl sub listing :
  0 < n → 0 < s → all_blocks dir n s = Ok bl →
  (∀ b, b ∈ sub → b ∈ bl) → listing ≡ₚ path <$> sub →
  ∃ self, from_dir true listing s = Ok self ∧
    BlockPathMap.block_size self = s ∧
    (∀ k p, BlockPathMap.block_path_map self !! k = Some p ↔
            ∃ b, b ∈ sub ∧ (range b).1 = k ∧ path b = p) ∧
    (∀ b, b ∈ sub → (range b).2 ≤ BlockPathMap.max_idx self) ∧
    (BlockPathMap.max_idx self = 0 ∨
     ∃ b, b ∈ sub ∧ (range b).2 = BlockPathMap.max_idx self).
Proof.
  intros Hn Hs Hbl Hsub Hperm.
  destruct (all_blocks_paths _ _ _ _ Hbl) as [_ Hparse].
  assert (∀ p, p ∈ sorted listing ↔ ∃ b, b ∈ sub ∧ p = path b) as Hin.
  { intros p. unfold sorted. rewrite merge_sort_Permutation, Hperm.
    rewrite list_elem_of_fmap. split; intros (b & ? & ?); eauto. }
  unfold from_dir, BlockPathMap.init.
  pose proof (scan_outcome (sorted listing) 0 ∅) as Hout.
  destruct (BlockPathMap.scan (sorted listing) 0 ∅) as [[mx m]|e] eqn:Hscan.
  2:{ destruct Hout as (_ & p & (b & Hb & ->)%Hin & Hp).
      rewrite Hparse in Hp by auto. done. }
  destruct Hout as (_ & Hmx0 & Hends & Hmax).
  destruct (scan_inv _ _ _ _ _ Hscan) as [Hkeys Hvals].
  assert (∀ k p, m !! k = Some p → ∃ b, b ∈ sub ∧ (range b).1 = k ∧ path b = p)
    as Hfrom.
  { intros k p [Hemp|(e & (b & Hb & ->)%Hin & Hp)]%Hvals;
      [by rewrite lookup_empty in Hemp|].
    rewrite Hparse in Hp by auto. injection Hp as Hr. exists b.
    by rewrite Hr. }
  eexists. split; [done|]. simpl. split_and!; [done| | |].
  - intros k p. split; [apply Hfrom|]. intros (b & Hb & <- & <-).
    destruct (proj2 (Hkeys (range b).1)) as [p Hp].
    { right. exists (path b), (range b).2. split; [apply Hin; eauto|].
      rewrite Hparse by auto. by destruct (range b). }
    rewrite Hp. f_equal.
    destruct (Hfrom _ _ Hp) as (b' & Hb' & Hstart & <-).
    f_equal. apply (block_same_start dir n s bl); auto.
  - intros b Hb. apply (Hends (path b)); [apply Hin; eauto|].
    apply Hparse. auto.
  - destruct Hmax as [->|(p & r & (b & Hb & ->)%Hin & Hp & <-)]; [by left|].
    right. exists b. split; [done|]. rewrite Hparse in Hp by auto.
    by injection Hp as <-.
Qed.

Lemma sorted_Permutation listing listing' :
  listing ≡ₚ listing' → sorted listing = sorted listing'.
Proof.
  intros Hperm. unfold sorted. apply (Sorted_unique String.le).
  - apply Sorted_merge_sort, _.
  - apply Sorted_merge_sort, _.
  - by rewrite !merge_sort_Permutation.
Qed.

End BlockMaps.

(** X12. [from_dir] raises [AssertionError] exactly when the directory is
    not there, whatever it is asked to list, and otherwise does not depend
    on the order in which the directory lists its files: any two listings
    of the same files give the same map, or the same exception. *)
Theorem from_dir_order (isdir : bool) (listing listing' : list string)
    (block_size : Z) :
  listing ≡ₚ listing' →
  from_dir isdir listing block_size = from_dir isdir listing' block_size ∧
  raises AssertionError (from_dir isdir listing block_size) = negb isdir.
Proof.
  intros Hperm. unfold from_dir. split.
  - destruct isdir; [|done]. by rewrite (sorted_Permutation _ _ Hperm).
  - destruct isdir; [|done]. simpl.
    pose proof (scan_outcome (sorted listing) 0 ∅) as Hout.
    unfold BlockPathMap.init.
    destruct (BlockPathMap.scan (sorted listing) 0 ∅) as [[mx m]|e]; [done|].
    by destruct Hout as [-> _].
Qed.

Lemma from_dir_order_witness :
  from_dir true ["proj/0200-0250.hdf5"; "proj/0000-0100.hdf5"]%string 100 =
  from_dir true ["proj/0000-0100.hdf5"; "proj/0200-0250.hdf5"]%string 100 ∧
  raises AssertionError
    (from_dir true ["proj/0200-0250.hdf5"; "proj/0000-0100.hdf5"]%string 100)
  = negb true.
Proof.
  apply (from_dir_order true ["proj/0200-0250.hdf5"; "proj/0000-0100.hdf5"]%string
           ["proj/0000-0100.hdf5"; "proj/0200-0250.hdf5"]%string 100).
  apply Permutation_swap.
Defined.

(** X13. The map of a directory that holds every block file of
    [n_samples > 0] samples in blocks of [block_size > 0], listed in any
    order: [max_idx] is [n_samples], there is one key for each block, so
    [__str__] counts [ceil(n_samples / block_size)] paths, and a lookup
    raises [KeyError] exactly for an index below 0 or from
    [ceil(n_samples / block_size) * block_size] on. [max_idx] bounds nothing:
    an index from [n_samples] up to there is given the path of the last
    block. *)
Theorem from_dir_complete (project_dir : string) (n_samples block_size : Z)
    (listing : list string) (bl : list block) :
  0 < n_samples → 0 < block_size →
  all_blocks project_dir n_samples block_size = Ok bl →
  listing ≡ₚ path <$> bl →
  ∃ self,
    from_dir true listing block_size = Ok self ∧
    BlockPathMap.max_idx self = n_samples ∧
    Z.of_nat (size (BlockPathMap.block_path_map self))
      = n_blocks n_samples block_size ∧
    __str__ self = Py.str (n_blocks n_samples block_size) +:+ " paths" ∧
    (∀ idx, (BlockPathMap.getitem self idx).1 = Raise KeyError ↔
            idx < 0 ∨ n_blocks n_samples block_size * block_size ≤ idx) ∧
    (∀ idx b, n_samples ≤ idx < n_blocks n_samples block_size * block_size →
              last bl = Some b →
              (BlockPathMap.getitem self idx).1 = Ok (path b)).
Proof.
  intros Hn Hs Hbl Hperm.
  destruct (from_dir_blocks project_dir n_samples block_size bl bl listing)
    as (self & Hself & Hsize & Hmap & Hends & Hmax); [done..|].
  destruct (all_blocks_inv _ _ _ _ Hbl) as (_ & rs & Hrs & Hbl' & _ & Hbounds).
  pose proof (n_blocks_bounds n_samples block_size Hn Hs) as (Hnb & Hlo & Hhi).
  pose proof (block_ranges_lookup n_samples block_size rs) as Hlk.
  set (nb := n_blocks n_samples block_size) in *.
  assert (∀ k, is_Some (BlockPathMap.block_path_map self !! k) ↔
               ∃ i, 0 ≤ i < nb ∧ k = i * block_size) as Hkeys.
  { intros k. split.
    - intros [p (b & Hb & <- & _)%Hmap]. rewrite Hbl' in Hb.
      apply list_elem_of_fmap in Hb as (r & -> & [i Hr]%list_elem_of_lookup).
      apply Hlk in Hr as [Hi ->]; [|done..]. exists (Z.of_nat i). simpl.
      split; [lia|done].
    - intros (i & Hi & ->).
      exists (path (block_of project_dir (ceil_log10 n_samples + 1)
        (i * block_size, Z.min n_samples ((i + 1) * block_size)))).
      apply Hmap.
      exists (block_of project_dir (ceil_log10 n_samples + 1)
        (i * block_size, Z.min n_samples ((i + 1) * block_size))).
      split; [|done]. rewrite Hbl'.
      apply list_elem_of_fmap. eexists. split; [done|].
      apply (list_elem_of_lookup_2 _ (Z.to_nat i)).
      apply Hlk; [done..|]. rewrite Z2Nat.id by lia. split; [lia|done]. }
  assert (∀ idx, (BlockPathMap.getitem self idx).1 =
    match BlockPathMap.block_path_map self !! (block_size * (idx / block_size)) with
    | Some p => Ok p
    | None => Raise KeyError
    end) as Hget.
  { intros idx. destruct (getitem_eq self idx) as (_ & _ & Hg).
    rewrite Hsize in Hg. apply Hg. lia. }
  assert (∀ idx, is_Some (BlockPathMap.block_path_map self
                            !! (block_size * (idx / block_size)))
                 ↔ 0 ≤ idx < nb * block_size) as Hin.
  { intros idx. rewrite Hkeys.
    pose proof (Z.mul_div_le idx block_size Hs).
    pose proof (Z.mul_succ_div_gt idx block_size Hs).
    split.
    - intros (i & Hi & Heq). assert (idx / block_size = i) as <- by nia. nia.
    - intros Hidx. exists (idx / block_size). split; [nia|lia]. }
  exists self. split; [done|].
  assert (Z.of_nat (size (BlockPathMap.block_path_map self)) = nb) as Hcount.
  { rewrite <- size_dom.
    assert (dom (BlockPathMap.block_path_map self)
            = list_to_set ((λ i, i * block_size) <$> seqZ 0 nb) :> gset Z) as ->.
    { apply set_eq. intros k.
      rewrite elem_of_dom, Hkeys, elem_of_list_to_set, list_elem_of_fmap.
      split.
      - intros (i & Hi & ->). exists i. split; [done|]. apply elem_of_seqZ. lia.
      - intros (i & -> & Hi%elem_of_seqZ). exists i. split; [lia|done]. }
    rewrite size_list_to_set.
    - rewrite length_fmap, length_seqZ. lia.
    - apply NoDup_fmap_2_strong; [|apply NoDup_seqZ]. intros x y _ _ ?. nia. }
  split_and!.
  - destruct (tiles_of_block_ranges n_samples block_size rs Hn Hs Hrs)
      as [_ [b0 Hlast] _ _ _ _ _].
    assert (block_of project_dir (ceil_log10 n_samples + 1) (b0, n_samples) ∈ bl)
      as Hb.
    { rewrite Hbl'. apply list_elem_of_fmap. eexists. split; [done|].
      rewrite last_lookup in Hlast. by eapply list_elem_of_lookup_2. }
    apply Hends in Hb. unfold block_of in Hb. cbn [range snd] in Hb.
    destruct Hmax as [Hz|(b & Hb' & Hmax)]; [lia|].
    rewrite Hbl' in Hb'. apply list_elem_of_fmap in Hb' as (r & -> & Hr).
    unfold block_of in Hmax. cbn [range] in Hmax.
    destruct (Hbounds r Hr) as (_ & _ & ?). lia.
  - done.
  - unfold __str__. by rewrite Hcount.
  - intros idx. rewrite Hget. specialize (Hin idx).
    destruct (_ !! _) as [p|].
    + split; [done|]. intros Hout. destruct (proj1 Hin); [by eexists|]. lia.
    + split; [|done]. intros _.
      destruct (decide (0 ≤ idx < nb * block_size)) as [Hidx|]; [|lia].
      by destruct (proj2 Hin Hidx).
  - intros idx b Hidx Hlast. rewrite Hget.
    assert (idx / block_size = nb - 1) as Hq.
    { symmetry. apply (Z.div_unique idx block_size (nb - 1)
        (idx - (nb - 1) * block_size)); lia. }
    rewrite Hq.
    assert (b ∈ bl ∧ (range b).1 = block_size * (nb - 1)) as [Hb Hstart].
    { rewrite Hbl' in Hlast |- *. rewrite fmap_last in Hlast.
      destruct (last rs) as [r|] eqn:Hr; [|done]. injection Hlast as <-.
      rewrite last_lookup in Hr. split.
      - apply list_elem_of_fmap. eexists. split; [done|].
        by eapply list_elem_of_lookup_2.
      - pose proof (block_ranges_length n_samples block_size rs Hn Hs Hrs).
        apply Hlk in Hr as [_ ->]; [|done..]. simpl. fold nb in H.
        replace (Z.of_nat (Nat.pred (length rs))) with (nb - 1) by lia. lia. }
    rewrite (proj2 (Hmap (block_size * (nb - 1)) (path b))); [done|].
    by exists b.
Qed.

Lemma from_dir_complete_witness :
  ∃ self,
    from_dir true ["proj/0200-0250.hdf5"; "proj/0000-0100.hdf5";
                   "proj/0100-0200.hdf5"]%string 100 = Ok self ∧
    BlockPathMap.max_idx self = 250 ∧
    Z.of_nat (size (BlockPathMap.block_path_map self)) = n_blocks 250 100 ∧
    __str__ self = Py.str (n_blocks 250 100) +:+ " paths" ∧
    (∀ idx, (BlockPathMap.getitem self idx).1 = Raise KeyError ↔
            idx < 0 ∨ n_blocks 250 100 * 100 ≤ idx) ∧
    (∀ idx b, 250 ≤ idx < n_blocks 250 100 * 100 →
              last [Block (0, 100) "proj/0000-0100.hdf5";
                    Block (100, 200) "proj/0100-0200.hdf5";
                    Block (200, 250) "proj/0200-0250.hdf5"] = Some b →
              (BlockPathMap.getitem self idx).1 = Ok (path b)).
Proof.
  apply (from_dir_complete "proj" 250 100
    ["proj/0200-0250.hdf5"; "proj/0000-0100.hdf5"; "proj/0100-0200.hdf5"]%string
    [Block (0, 100) "proj/0000-0100.hdf5";
     Block (100, 200) "proj/0100-0200.hdf5";
     Block (200, 250) "proj/0200-0250.hdf5"]); [lia|lia|reflexivity|].
  simpl. etrans; [apply Permutation_swap|]. apply perm_skip, Permutation_swap.
Defined.

Example from_dir_str :
  match from_dir true ["proj/0200-0250.hdf5"; "proj/0000-0100.hdf5"]%string 100 with
  | Ok self => __str__ self = "2 paths"%string
  | Raise _ => False
  end.
Proof. reflexivity. Qed.

(** X14. [get_blocks] and [BlockPathMap] agree on a directory that is only
    partly filled. In the map of the files of the existing blocks, listed
    in any order, an index in the range of an existing block is given the
    path of that block, and an index in the range of a missing block raises
    [KeyError]. *)
Theorem existing_blocks_map {h5 : Type} (rank : Z) (fs : gmap string (file h5))
    (project_dir : string) (n_samples block_size : Z)
    (validate : option (h5 → result ())) :
  0 < n_samples → 0 < block_size →
  ∃ fs' blocks,
    get_blocks rank fs project_dir n_samples block_size validate = Ok (fs', blocks) ∧
    ∀ listing, listing ≡ₚ path <$> Blocks.existing blocks →
      ∃ self,
        from_dir true listing block_size = Ok self ∧
        (∀ b idx, b ∈ Blocks.existing blocks →
           (range b).1 ≤ idx < (range b).2 →
           (BlockPathMap.getitem self idx).1 = Ok (path b)) ∧
        (∀ b idx, b ∈ Blocks.missing blocks →
           (range b).1 ≤ idx < (range b).2 →
           (BlockPathMap.getitem self idx).1 = Raise KeyError).
Proof.
  intros Hn Hs.
  destruct (get_blocks_ok rank fs project_dir n_samples block_size validate Hn Hs)
    as (fs' & bl & Hbl & Hget).
  exists fs', (collect fs' bl). split; [done|]. intros listing Hperm.
  destruct (from_dir_blocks project_dir n_samples block_size bl
              (Blocks.existing (collect fs' bl)) listing)
    as (self & Hself & Hsize & Hmap & _); [done..| |done|].
  { intros b [_ Hb]%list_elem_of_filter. done. }
  exists self. split; [done|].
  assert (∀ idx, (BlockPathMap.getitem self idx).1 =
    match BlockPathMap.block_path_map self !! (block_size * (idx / block_size)) with
    | Some p => Ok p
    | None => Raise KeyError
    end) as Hlookup.
  { intros idx. destruct (getitem_eq self idx) as (_ & _ & Hg).
    rewrite Hsize in Hg. apply Hg. lia. }
  split.
  - intros b idx Hb Hidx. rewrite Hlookup.
    assert (b ∈ bl) as Hbl' by (by apply list_elem_of_filter in Hb as [_ ?]).
    rewrite <- (block_start project_dir n_samples block_size bl b idx) by done.
    rewrite (proj2 (Hmap (range b).1 (path b))); [done|]. by exists b.
  - intros b idx Hb Hidx. rewrite Hlookup.
    apply list_elem_of_filter in Hb as [Hno Hbl'].
    rewrite <- (block_start project_dir n_samples block_size bl b idx) by done.
    destruct (_ !! _) as [p|] eqn:Hp; [|done].
    apply Hmap in Hp as (b' & [Hex Hb']%list_elem_of_filter & Hstart & _).
    by rewrite (block_same_start project_dir n_samples block_size bl b' b) in Hex.
Qed.

Lemma existing_blocks_map_witness :
  ∃ fs' blocks,
    get_blocks 0 some_dir "proj" 250 100 None = Ok (fs', blocks) ∧
    ∀ listing, listing ≡ₚ path <$> Blocks.existing blocks →
      ∃ self,
        from_dir true listing 100 = Ok self ∧
        (∀ b idx, b ∈ Blocks.existing blocks →
           (range b).1 ≤ idx < (range b).2 →
           (BlockPathMap.getitem self idx).1 = Ok (path b)) ∧
        (∀ b idx, b ∈ Blocks.missing blocks →
           (range b).1 ≤ idx < (range b).2 →
           (BlockPathMap.getitem self idx).1 = Raise KeyError).
Proof. apply (existing_blocks_map 0 some_dir "proj" 250 100 None); lia. Defined.

(** ** More on the sharding *)

Section Balance.

Lemma slice_count_alt n r W :
  0 ≤ n → 0 ≤ r < W →
  slice_count n r W = n_blocks (n - r) W ∧
  n_blocks n W - 1 ≤ slice_count n r W ≤ n_blocks n W.
Proof.
  intros Hn Hr. unfold slice_count, n_blocks.
  assert (n + W - 1 = (n - 1) + 1 * W) as -> by lia.
  assert (n - r + W - 1 = (n - r - 1) + 1 * W) as -> by lia.
  rewrite !Z.div_add by lia.
  destruct (Z.ltb_spec r n) as [Hlt|Hge].
  - split; [done|].
    pose proof (Z.div_le_mono (n - r - 1) (n - 1) W ltac:(lia) ltac:(lia)).
    pose proof (Z.div_le_mono (n - 1 - W) (n - r - 1) W ltac:(lia) ltac:(lia)) as Hlo.
    replace (n - 1 - W) with ((n - 1) + (-1) * W) in Hlo by lia.
    rewrite Z.div_add in Hlo by lia. lia.
  - assert ((n - r - 1) / W = -1) as ->.
    { symmetry. apply (Z.div_unique (n - r - 1) W (-1) (n - r - 1 + W)); lia. }
    split; [done|].
    destruct (Z.eq_dec n 0) as [->|].
    + replace ((0 - 1) / W) with (-1); [lia|].
      apply (Z.div_unique (0 - 1) W (-1) (W - 1)); lia.
    + rewrite Z.div_small by lia. lia.
Qed.

(** What a rank is given of one list: so many blocks, and at most one
    marker. *)
Lemma rank_blocks_balance (l : list block) r W :
  1 ≤ W → 0 ≤ r < W →
  ∃ out, rank_blocks l r W = Ok out ∧
    Z.of_nat (length (non_markers out)) = n_blocks (Z.of_nat (length l) - r) W ∧
    0 ≤ n_markers out ≤ 1 ∧
    (n_markers out = 1 ↔
     Z.of_nat (length l) - r ≤ (n_blocks (Z.of_nat (length l)) W - 1) * W).
Proof.
  intros HW Hr. set (n := Z.of_nat (length l)).
  destruct (rank_blocks_ok l r W) as (sl & Hsl & Hout & _ & Hnm); [lia..|].
  destruct (rank_slice_ok l r W) as (sl' & Hsl' & _ & Hlen); [lia..|].
  rewrite Hsl in Hsl'. injection Hsl' as <-. fold n in Hlen.
  destruct (slice_count_alt n r W) as [Halt Hbal]; [lia..|].
  exists (shard_of l r W). split; [done|].
  assert (Z.of_nat (length (shard_of l r W)) = n_blocks n W) as Hshard.
  { unfold shard_of. rewrite length_fmap, length_seqZ. fold n.
    destruct (slice_count_bounds n 0 W 0) as (? & _ & <- & _); lia. }
  unfold n_markers. rewrite Hnm, Hshard, Hlen, <- Halt.
  split; [done|]. split; [lia|].
  rewrite Halt. unfold n_blocks.
  assert (n + W - 1 = (n - 1) + 1 * W) as -> by lia.
  rewrite Z.div_add by lia.
  pose proof (Z.div_mod (n - 1) W ltac:(lia)).
  pose proof (Z.mod_pos_bound (n - 1) W ltac:(lia)).
  pose proof (Z.div_mod (n - r + W - 1) W ltac:(lia)).
  pose proof (Z.mod_pos_bound (n - r + W - 1) W ltac:(lia)).
  split; intros; nia.
Qed.

(** With a single rank the list is handed on as it is. *)
Lemma shard_of_single (l : list block) : shard_of l 0 1 = Some <$> l.
Proof.
  unfold shard_of, n_blocks.
  replace ((Z.of_nat (length l) + 1 - 1) / 1) with (Z.of_nat (length l))
    by (rewrite Z.div_1_r; lia).
  apply list_eq. intros i. rewrite !list_lookup_fmap.
  destruct (decide (i < length l)%nat) as [Hi|Hi].
  - rewrite (proj2 (lookup_seqZ 0 (Z.of_nat (length l)) i (Z.of_nat i)))
      by lia. simpl.
    replace (Z.to_nat (0 + Z.of_nat i * 1)) with i by lia.
    by destruct (lookup_lt_is_Some_2 l i Hi) as [x ->].
  - rewrite (lookup_ge_None_2 l) by lia. simpl.
    destruct (seqZ 0 (Z.of_nat (length l)) !! i) eqn:Hs; [|done].
    apply lookup_seqZ in Hs. lia.
Qed.

(** The slice of a rank goes through the list from front to back. *)
Lemma slice_sublist (l : list block) (c : nat) r W :
  1 ≤ W → 0 ≤ r →
  omap (λ i, l !! Z.to_nat (r + i * W)) (seqZ 0 (Z.of_nat c)) `sublist_of` l.
Proof.
  intros HW. revert l r. induction c as [|c IH]; intros l r Hr.
  { apply sublist_nil_l. }
  rewrite seqZ_cons by lia.
  replace (Z.pred (Z.of_nat (S c))) with (Z.of_nat c) by lia.
  rewrite <- (fmap_add_seqZ 1 0). change (Z.succ 0) with 1.
  cbn [omap list_omap]. change (list_omap ?f ?xs) with (omap f xs).
  rewrite omap_fmap.
  assert (omap (λ i, l !! Z.to_nat (r + (1 + i) * W)) (seqZ 0 (Z.of_nat c))
          = omap (λ i, drop (S (Z.to_nat r)) l !! Z.to_nat ((W - 1) + i * W))
                 (seqZ 0 (Z.of_nat c))) as ->.
  { apply omap_ext_in. intros i [Hi _]%elem_of_seqZ. rewrite lookup_drop.
    f_equal. lia. }
  specialize (IH (drop (S (Z.to_nat r)) l) (W - 1) ltac:(lia)).
  replace (r + 0 * W) with r by lia.
  destruct (l !! Z.to_nat r) as [x|] eqn:Hx.
  - assert (l = take (Z.to_nat r) l ++ x :: drop (S (Z.to_nat r)) l) as Hl
      by (by rewrite take_drop_middle).
    set (d := drop (S (Z.to_nat r)) l) in *. rewrite Hl.
    apply sublist_inserts_l. by apply sublist_skip.
  - etrans; [apply IH|]. apply sublist_drop.
Qed.

End Balance.

(** X15. [get_blocks_by_rank] is balanced. Of a list of [n] blocks rank
    [r] of [W] is given [ceil((n - r) / W)], so no rank has more than a
    rank before it and none falls more than one short of the longest; the
    one that is short holds one marker, and no rank ever holds two. The
    counts for the world are the lengths of the two lists. *)
Theorem rank_balance (blocks : Blocks.t) (r W : Z) :
  1 ≤ W → 0 ≤ r < W →
  ∃ rb, get_blocks_by_rank blocks r W = Ok rb ∧
    RankBlocks.n_existing_world rb = Z.of_nat (length (Blocks.existing blocks)) ∧
    RankBlocks.n_missing_world rb = Z.of_nat (length (Blocks.missing blocks)) ∧
    Z.of_nat (length (non_markers (RankBlocks.existing rb)))
      = n_blocks (Z.of_nat (length (Blocks.existing blocks)) - r) W ∧
    Z.of_nat (length (non_markers (RankBlocks.missing rb)))
      = n_blocks (Z.of_nat (length (Blocks.missing blocks)) - r) W ∧
    0 ≤ n_markers (RankBlocks.existing rb) ≤ 1 ∧
    0 ≤ n_markers (RankBlocks.missing rb) ≤ 1.
Proof.
  intros HW Hr. unfold get_blocks_by_rank.
  destruct (rank_blocks_balance (Blocks.existing blocks) r W HW Hr)
    as (e & -> & He & Hme & _).
  destruct (rank_blocks_balance (Blocks.missing blocks) r W HW Hr)
    as (m & -> & Hm & Hmm & _).
  eexists. split; [done|]. simpl. done.
Qed.

Lemma rank_balance_witness :
  ∃ rb, get_blocks_by_rank five_existing 1 2 = Ok rb ∧
    RankBlocks.n_existing_world rb = Z.of_nat (length (Blocks.existing five_existing)) ∧
    RankBlocks.n_missing_world rb = Z.of_nat (length (Blocks.missing five_existing)) ∧
    Z.of_nat (length (non_markers (RankBlocks.existing rb)))
      = n_blocks (Z.of_nat (length (Blocks.existing five_existing)) - 1) 2 ∧
    Z.of_nat (length (non_markers (RankBlocks.missing rb)))
      = n_blocks (Z.of_nat (length (Blocks.missing five_existing)) - 1) 2 ∧
    0 ≤ n_markers (RankBlocks.existing rb) ≤ 1 ∧
    0 ≤ n_markers (RankBlocks.missing rb) ≤ 1.
Proof. apply (rank_balance five_existing 1 2); lia. Defined.

(** X16. With one rank in the data-parallel group nothing is shared out
    and nothing is padded: rank 0 is given both lists whole and in order,
    and there is no marker. *)
Theorem single_rank (blocks : Blocks.t) :
  get_blocks_by_rank blocks 0 1 =
    Ok {| RankBlocks.n_existing_world := Z.of_nat (length (Blocks.existing blocks));
          RankBlocks.n_missing_world := Z.of_nat (length (Blocks.missing blocks));
          RankBlocks.existing := Some <$> Blocks.existing blocks;
          RankBlocks.missing := Some <$> Blocks.missing blocks |}.
Proof.
  unfold get_blocks_by_rank.
  destruct (rank_blocks_ok (Blocks.existing blocks) 0 1) as (? & _ & -> & _); [lia..|].
  destruct (rank_blocks_ok (Blocks.missing blocks) 0 1) as (? & _ & -> & _); [lia..|].
  by rewrite !shard_of_single.
Qed.

(** X17. Sharding keeps the order: the blocks of a rank come in the order
    in which they stand in the list of [get_blocks], so by rising range
    when the list is, and the markers come after all of them. *)
Theorem rank_order (blocks : Blocks.t) (r W : Z) :
  1 ≤ W → 0 ≤ r < W →
  ∃ rb, get_blocks_by_rank blocks r W = Ok rb ∧
    non_markers (RankBlocks.existing rb) `sublist_of` Blocks.existing blocks ∧
    non_markers (RankBlocks.missing rb) `sublist_of` Blocks.missing blocks ∧
    RankBlocks.existing rb =
      (Some <$> non_markers (RankBlocks.existing rb))
      ++ replicate (Z.to_nat (n_markers (RankBlocks.existing rb))) None ∧
    RankBlocks.missing rb =
      (Some <$> non_markers (RankBlocks.missing rb))
      ++ replicate (Z.to_nat (n_markers (RankBlocks.missing rb))) None.
Proof.
  intros HW Hr.
  assert (∀ l : list block,
    ∃ out, rank_blocks l r W = Ok out ∧ non_markers out `sublist_of` l ∧
      out = (Some <$> non_markers out)
            ++ replicate (Z.to_nat (n_markers out)) None) as Hone.
  { intros l.
    destruct (rank_blocks_ok l r W) as (sl & Hsl & Hout & Hshape & Hnm); [lia..|].
    destruct (rank_slice_ok l r W) as (sl' & Hsl' & Hentries & Hlen); [lia..|].
    rewrite Hsl in Hsl'. injection Hsl' as <-.
    exists (shard_of l r W). split; [done|]. rewrite Hnm. split.
    - destruct (slice_count_bounds (Z.of_nat (length l)) r W 0)
        as (Hc0 & _ & _ & _); [lia..|].
      pose proof (slice_sublist l
        (Z.to_nat (slice_count (Z.of_nat (length l)) r W)) r W HW ltac:(lia)) as Hsub.
      rewrite Z2Nat.id in Hsub by done.
      assert (omap id ((λ i, l !! Z.to_nat (r + i * W)) <$>
                seqZ 0 (slice_count (Z.of_nat (length l)) r W)) = sl) as Hid.
      { rewrite <- Hentries. clear. induction sl as [|x sl IH]; [done|].
        simpl. by f_equal. }
      rewrite omap_fmap in Hid. rewrite <- Hid. exact Hsub.
    - rewrite Hshape at 1. f_equal. f_equal. unfold n_markers. rewrite Hnm. lia. }
  unfold get_blocks_by_rank.
  destruct (Hone (Blocks.existing blocks)) as (e & -> & ? & ?).
  destruct (Hone (Blocks.missing blocks)) as (m & -> & ? & ?).
  eexists. split; [done|]. done.
Qed.

Lemma rank_order_witness :
  ∃ rb, get_blocks_by_rank five_existing 1 2 = Ok rb ∧
    non_markers (RankBlocks.existing rb) `sublist_of` Blocks.existing five_existing ∧
    non_markers (RankBlocks.missing rb) `sublist_of` Blocks.missing five_existing ∧
    RankBlocks.existing rb =
      (Some <$> non_markers (RankBlocks.existing rb))
      ++ replicate (Z.to_nat (n_markers (RankBlocks.existing rb))) None ∧
    RankBlocks.missing rb =
      (Some <$> non_markers (RankBlocks.missing rb))
      ++ replicate (Z.to_nat (n_markers (RankBlocks.missing rb))) None.
Proof. apply (rank_order five_existing 1 2); lia. Defined.

(** ** More on the sampling *)

Section SampleShape.

Variable shuffle : N → list (option block) → list (option block).
Hypothesis shuffle_perm : ∀ seed l, shuffle seed l ≡ₚ l.

Implicit Types (l : list (option block)) (fraction : Q).

Lemma fmap_Some_non_markers l :
  (∀ x, x ∈ l → x ≠ None) → Some <$> non_markers l = l.
Proof.
  induction l as [|[b|] l IH]; intros Hall; [done|..].
  - simpl. f_equal. apply IH. intros x Hx. apply Hall. by right.
  - by destruct (Hall None); [left|].
Qed.

Lemma non_markers_Some (bs : list block) : non_markers (Some <$> bs) = bs.
Proof. induction bs as [|b bs IH]; [done|]. simpl. by f_equal. Qed.

(** The sample is a front part of the shuffled blocks, and markers behind. *)
Lemma sample_blocks_shape fraction seed l :
  (0 <= fraction)%Q →
  ∃ out, sample_blocks shuffle (Some fraction) seed l = Ok out ∧
    Some <$> non_markers out =
      take (Z.to_nat (n_blocks_sample fraction (length l)))
           (shuffle seed (filter (λ b, b ≠ None) l)) ∧
    out = (Some <$> non_markers out)
          ++ replicate (Z.to_nat (n_markers out)) None ∧
    Z.of_nat (length out) = n_blocks_sample fraction (length l).
Proof.
  intros Hf.
  destruct (sample_blocks_ok shuffle shuffle_perm fraction seed l Hf)
    as (Hout & Hkept & Hlen & _).
  destruct (n_blocks_sample_bounds fraction (length l) Hf) as [Hn _].
  set (n := n_blocks_sample fraction (length l)) in *.
  set (kept := take (Z.to_nat n) (shuffle seed (filter (λ b, b ≠ None) l))) in *.
  eexists. split; [done|].
  rewrite non_markers_pad, (fmap_Some_non_markers kept) by done.
  split; [done|].
  assert (length (non_markers kept) = length kept) as Hnm
    by (by apply length_non_markers_all).
  split.
  - f_equal. f_equal. unfold n_markers.
    rewrite non_markers_pad, Hnm, length_app, length_replicate. lia.
  - rewrite length_app, length_replicate. lia.
Qed.


End SampleShape.



(** X19. A fraction of 1 or more keeps every block: the blocks of the
    sample are the blocks of the list, each as often as there, in shuffled
    order, and with [fraction] 1 the sample is as long as the list and has
    as many markers. A fraction above 1 is not refused: the sample is then
    longer than the list, by markers alone. *)
Theorem sample_whole
    (shuffle : N → list (option block) → list (option block))
    (fraction : Q) (seed : N) (l : list (option block)) :
  (∀ seed l, shuffle seed l ≡ₚ l) →
  (1 <= fraction)%Q →
  ∃ out, sample_blocks shuffle (Some fraction) seed l = Ok out ∧
    non_markers out ≡ₚ non_markers l ∧
    (length l ≤ length out)%nat ∧
    n_markers l ≤ n_markers out ∧
    ((fraction == 1)%Q → length out = length l ∧ n_markers out = n_markers l).
Proof.
  intros Hperm Hf.
  assert (0 <= fraction)%Q as Hf0 by (by apply (Qle_trans _ 1)).
  destruct (sample_blocks_shape shuffle Hperm fraction seed l Hf0)
    as (out & Hout & Hblocks & Hshape & Hlen).
  assert (Z.of_nat (length l) ≤ n_blocks_sample fraction (length l)) as Hn.
  { unfold n_blocks_sample. rewrite <- (Qceiling_Z (Z.of_nat (length l))) at 1.
    apply Qceiling_resp_le. rewrite <- (Qmult_1_l (inject_Z _)) at 1.
    apply Qmult_le_compat_r; [done|]. rewrite <- (Zle_Qle 0). lia. }
  assert (non_markers out ≡ₚ non_markers l) as Hall.
  { rewrite <- (non_markers_Some (non_markers out)), Hblocks.
    rewrite take_ge.
    2:{ rewrite Hperm. pose proof (length_filter (λ b, b ≠ None) l). lia. }
    rewrite <- (non_markers_filter l). unfold non_markers.
    apply omap_Permutation, Hperm. }
  exists out. split; [done|]. split; [done|].
  unfold n_markers. rewrite Hall. split; [lia|]. split; [lia|].
  intros Hone.
  assert (n_blocks_sample fraction (length l) = Z.of_nat (length l)) as Heq.
  { unfold n_blocks_sample. by rewrite Hone, Qmult_1_l, Qceiling_Z. }
  split; lia.
Qed.

Lemma sample_whole_witness :
  ∃ out,
    sample_blocks (λ _ l, reverse l) (Some 1%Q) 0
      [Some (Block (100, 200) "b1"); None; Some (Block (300, 400) "b3")]
      = Ok out ∧
    non_markers out ≡ₚ
      non_markers [Some (Block (100, 200) "b1"); None; Some (Block (300, 400) "b3")] ∧
    le (length [Some (Block (100, 200) "b1"); None; Some (Block (300, 400) "b3")])
       (length out) ∧
    n_markers [Some (Block (100, 200) "b1"); None; Some (Block (300, 400) "b3")]
      ≤ n_markers out ∧
    ((1 == 1)%Q →
     length out =
       length [Some (Block (100, 200) "b1"); None; Some (Block (300, 400) "b3")] ∧
     n_markers out =
       n_markers [Some (Block (100, 200) "b1"); None; Some (Block (300, 400) "b3")]).
Proof.
  apply (sample_whole (λ _ l, reverse l) 1%Q 0
    [Some (Block (100, 200) "b1"); None; Some (Block (300, 400) "b3")]).
  - intros _ l. apply reverse_Permutation.
  - unfold Qle. simpl. lia.
Defined.



Example sample_negative :
  sample_blocks (λ _ l, reverse l) (Some (-1#2)%Q) 0
    [Some (Block (100, 200) "b1"); Some (Block (300, 400) "b3"); None]
  = Ok [Some (Block (300, 400) "b3")].
Proof. reflexivity. Qed.

(** ** The order of the block files *)

Section Lexicographic.

Lemma compare_app_prefix p a b :
  String.compare (p +:+ a) (p +:+ b) = String.compare a b.
Proof.
  induction p as [|c p IH]; [done|]. rewrite !string_app_cons. simpl.
  unfold Ascii.compare. by rewrite N.compare_refl.
Qed.

Lemma compare_app_lt a b u v :
  String.length a = String.length b →
  String.compare a b = Lt → String.compare (a +:+ u) (b +:+ v) = Lt.
Proof.
  revert b. induction a as [|c a IH]; intros [|d b] Hlen; try done.
  rewrite !string_app_cons. simpl in *.
  destruct (Ascii.compare c d); [|done..]. apply IH. lia.
Qed.

(** The number that a numeral writes, digit by digit. *)
Lemma of_uint_acc_val l acc :
  Z.pos (Pos.of_uint_acc l acc) =
    Z.pos acc * 10 ^ Z.of_nat (Decimal.nb_digits l) + Z.of_N (Pos.of_uint l).
Proof.
  revert acc. induction l as [|l IH|l IH|l IH|l IH|l IH|l IH|l IH|l IH|l IH|l IH];
    intros acc; [simpl; lia|..];
    cbn [Pos.of_uint_acc Pos.of_uint Decimal.nb_digits Z.of_N];
    rewrite Nat2Z.inj_succ, Z.pow_succ_r by lia;
    rewrite !IH; lia.
Qed.

Lemma of_uint_bound l :
  0 ≤ Z.of_N (Pos.of_uint l) < 10 ^ Z.of_nat (Decimal.nb_digits l).
Proof.
  induction l as [|l IH|l IH|l IH|l IH|l IH|l IH|l IH|l IH|l IH|l IH];
    [simpl; lia|..];
    cbn [Pos.of_uint Decimal.nb_digits Z.of_N];
    rewrite Nat2Z.inj_succ, Z.pow_succ_r by lia;
    rewrite ?of_uint_acc_val; lia.
Qed.

Lemma uint_of_char_val c d d' :
  uint_of_char c (Some d) = Some d' →
  let k := Z.of_N (N_of_ascii c) - 48 in
  0 ≤ k ≤ 9 ∧
  Z.of_uint d' = k * 10 ^ Z.of_nat (Decimal.nb_digits d) + Z.of_uint d ∧
  Decimal.nb_digits d' = S (Decimal.nb_digits d).
Proof.
  destruct c as [[] [] [] [] [] [] [] []]; simpl; try done; intros [= <-];
    (split; [lia|]); (split; [|done]);
    unfold Z.of_uint, N.of_uint; cbn [Pos.of_uint Z.of_N];
    rewrite ?of_uint_acc_val; lia.
Qed.

Lemma uint_of_string_cons c s d :
  NilEmpty.uint_of_string (String c s) = Some d →
  ∃ l, NilEmpty.uint_of_string s = Some l ∧ uint_of_char c (Some l) = Some d.
Proof.
  simpl. destruct (NilEmpty.uint_of_string s) as [l|]; [by eauto|].
  by destruct c as [[] [] [] [] [] [] [] []].
Qed.

Lemma uint_of_string_nb s d :
  NilEmpty.uint_of_string s = Some d → Decimal.nb_digits d = String.length s.
Proof.
  revert d. induction s as [|c s IH]; intros d; [by intros [= <-]|].
  intros (l & Hl & Hc)%uint_of_string_cons.
  apply uint_of_char_val in Hc as (_ & _ & ->). simpl. f_equal. by apply IH.
Qed.

(** Numerals of one length compare as the numbers they write. *)
Lemma digits_compare a b da db :
  String.length a = String.length b →
  NilEmpty.uint_of_string a = Some da → NilEmpty.uint_of_string b = Some db →
  String.compare a b = (Z.of_uint da ?= Z.of_uint db).
Proof.
  revert b da db. induction a as [|c a IH]; intros [|d b] da db Hlen; try done.
  { by intros [= <-] [= <-]. }
  intros (la & Hla & Hc)%uint_of_string_cons (lb & Hlb & Hd)%uint_of_string_cons.
  pose proof (uint_of_string_nb _ _ Hla) as Hna.
  pose proof (uint_of_string_nb _ _ Hlb) as Hnb.
  apply uint_of_char_val in Hc as (Hkc & -> & _).
  apply uint_of_char_val in Hd as (Hkd & -> & _).
  simpl in Hlen. rewrite Hna, Hnb.
  replace (String.length b) with (String.length a) by lia.
  pose proof (of_uint_bound la) as Hba. pose proof (of_uint_bound lb) as Hbb.
  rewrite Hna in Hba. rewrite Hnb in Hbb.
  replace (String.length b) with (String.length a) in Hbb by lia.
  unfold Z.of_uint, N.of_uint in *.
  set (P := 10 ^ Z.of_nat (String.length a)) in *.
  change (String.compare (String c a) (String d b)) with
    (match Ascii.compare c d with Eq => String.compare a b | ne => ne end).
  unfold Ascii.compare. rewrite <- N2Z.inj_compare.
  destruct (Z.compare_spec (Z.of_N (N_of_ascii c)) (Z.of_N (N_of_ascii d)))
    as [Heq|Hlt|Hgt].
  - rewrite Heq, Z.add_compare_mono_l. apply IH; [lia|done..].
  - symmetry. apply Z.compare_lt_iff. nia.
  - symmetry. apply Z.compare_gt_iff. nia.
Qed.

Lemma int_uint_of_string s z :
  Py.int s = Ok z → ∃ d, NilEmpty.uint_of_string s = Some d ∧ Z.of_uint d = z.
Proof.
  unfold Py.int, NilZero.uint_of_string. destruct s as [|c s]; [done|].
  destruct (NilEmpty.uint_of_string (String c s)) as [d|]; [|done].
  intros [= <-]. eauto.
Qed.

(** With zeros in front up to one width, the numerals of two numbers stand
    in the order of the numbers. *)
Lemma padded_compare w x y :
  0 ≤ x < y →
  Z.of_nat (String.length (Py.str x)) ≤ w →
  Z.of_nat (String.length (Py.str y)) ≤ w →
  String.compare (padded w x) (padded w y) = Lt.
Proof.
  intros Hxy Hx Hy.
  destruct (int_uint_of_string (padded w x) x) as (dx & Hdx & Hvx).
  { unfold padded. apply int_zeros_str. lia. }
  destruct (int_uint_of_string (padded w y) y) as (dy & Hdy & Hvy).
  { unfold padded. apply int_zeros_str. lia. }
  rewrite (digits_compare _ _ dx dy); [|
    apply Nat2Z.inj; by rewrite !length_padded | done..].
  rewrite Hvx, Hvy. apply Z.compare_lt_iff. lia.
Qed.

(** [os.path.join] puts one and the same text in front of every name that
    is not absolute. *)
Lemma join_prefix dir :
  ∃ prefix, ∀ name,
    Py.startswith "/" name = false → os_path.join dir name = prefix +:+ name.
Proof.
  exists (if (String.eqb dir EmptyString || Py.endswith "/" dir)%bool
          then dir else dir +:+ "/").
  intros name Hname. unfold os_path.join. rewrite Hname.
  destruct (_ || _)%bool; [done|]. by rewrite string_app_assoc.
Qed.

Lemma block_name_relative nd r :
  0 ≤ r.1 → Py.startswith "/" (block_name nd r) = false.
Proof.
  intros Hr. unfold block_name.
  destruct (zfill_str_digits r.1 nd Hr) as (Hd & Hne & _).
  destruct (digits_first _ Hd Hne) as (a & s & -> & Ha).
  rewrite string_app_cons. simpl.
  destruct (Ascii.eqb_spec a "/") as [->|]; done.
Qed.

Lemma StronglySorted_fmap_seqZ {A} (R : relation A) (f : Z → A) m n :
  (∀ i j, m ≤ i → i < j → j < m + n → R (f i) (f j)) →
  StronglySorted R (f <$> seqZ m n).
Proof.
  intros Hf. destruct (Z.le_gt_cases n 0) as [Hn|Hn].
  { rewrite seqZ_nil by done. constructor. }
  rewrite <- (Z2Nat.id n) in * by lia. clear Hn.
  revert m Hf. induction (Z.to_nat n) as [|k IH]; intros m Hf.
  { constructor. }
  rewrite seqZ_cons by lia.
  replace (Z.pred (Z.of_nat (S k))) with (Z.of_nat k) by lia.
  rewrite fmap_cons. constructor.
  - apply IH. intros i j ? ? ?. apply Hf; lia.
  - apply Forall_fmap, Forall_forall. intros j [? ?]%elem_of_seqZ.
    apply Hf; lia.
Qed.

(** The paths of the blocks stand in the order of the strings. *)
Lemma block_paths_sorted dir n s bl :
  all_blocks dir n s = Ok bl → StronglySorted String.le (path <$> bl).
Proof.
  intros Hbl. pose proof (all_blocks_outcome dir n s) as Hout.
  rewrite Hbl in Hout. destruct Hout as (Hn & Hnz & Hneg).
  destruct (Z.lt_ge_cases s 0) as [Hs|Hs].
  { rewrite Hneg by done. constructor. }
  assert (0 < s) as Hpos by lia. clear Hs Hnz Hneg.
  destruct (all_blocks_ok dir n s Hn Hpos) as (rs & Hrs & Hbl').
  rewrite Hbl in Hbl'. injection Hbl' as ->.
  rewrite block_ranges_ok in Hrs by done. injection Hrs as <-.
  rewrite <- !list_fmap_compose.
  pose proof (n_blocks_bounds n s Hn Hpos) as (Hnb & Hlo & Hhi).
  destruct (join_prefix dir) as [prefix Hjoin].
  apply StronglySorted_fmap_seqZ. intros i j Hi Hij Hj. simpl.
  rewrite !Hjoin by (apply block_name_relative; simpl; nia).
  unfold String.le, String.leb. rewrite compare_app_prefix.
  unfold block_name. simpl. rewrite !zfill_padded by nia.
  rewrite compare_app_lt; [done| |].
  - apply Nat2Z.inj. rewrite !length_padded; [done|..];
      apply str_length_le; nia.
  - apply padded_compare; [nia|..]; apply str_length_le; nia.
Qed.

End Lexicographic.

(** X21. The zeros in front of the numerals make the order of the strings
    the order of the blocks: sorting the paths of the blocks that
    [get_blocks] computes leaves them where they are, so [from_dir] scans a
    directory of block files from the first block to the last, however the
    directory lists them. *)
Theorem sorted_block_paths (project_dir : string) (n_samples block_size : Z)
    (bl : list block) (listing : list string) :
  all_blocks project_dir n_samples block_size = Ok bl →
  listing ≡ₚ path <$> bl →
  sorted listing = path <$> bl ∧
  from_dir true listing block_size = BlockPathMap.init (path <$> bl) block_size.
Proof.
  intros Hbl Hperm.
  assert (sorted listing = path <$> bl) as Hsorted.
  { unfold sorted. apply (StronglySorted_unique String.le).
    - apply StronglySorted_merge_sort; apply _.
    - by eapply block_paths_sorted.
    - by rewrite merge_sort_Permutation. }
  split; [done|]. unfold from_dir. by rewrite Hsorted.
Qed.

Lemma sorted_block_paths_witness :
  sorted ["proj/0200-0250.hdf5"; "proj/0000-0100.hdf5"; "proj/0100-0200.hdf5"]%string
    = path <$> [Block (0, 100) "proj/0000-0100.hdf5";
                Block (100, 200) "proj/0100-0200.hdf5";
                Block (200, 250) "proj/0200-0250.hdf5"] ∧
  from_dir true
    ["proj/0200-0250.hdf5"; "proj/0000-0100.hdf5"; "proj/0100-0200.hdf5"]%string 100
    = BlockPathMap.init
        (path <$> [Block (0, 100) "proj/0000-0100.hdf5";
                   Block (100, 200) "proj/0100-0200.hdf5";
                   Block (200, 250) "proj/0200-0250.hdf5"]) 100.
Proof.
  apply (sorted_block_paths "proj" 250 100); [reflexivity|].
  simpl. etrans; [apply Permutation_swap|]. apply perm_skip, Permutation_swap.
Defined.

(** ** From the directory to the samples *)

(** X22. Through the whole of [get_sampled_blocks_by_rank], from the
    scan to the samples, no block comes to two ranks: what a rank samples
    are blocks of its own share of what [get_blocks] returned, so the
    samples of two ranks have no block in common, and the counts for the
    world are still those of the lists before the sharding. *)
Theorem sampled_ranks_disjoint {h5 : Type}
    (shuffle : N → list (option block) → list (option block))
    (rank : Z) (fs fs' : gmap string (file h5)) (project_dir : string)
    (n_samples block_size : Z) (validate : option (h5 → result ()))
    (blocks : Blocks.t) (fraction : Q) (W r1 r2 : Z) (seed1 seed2 seed3 seed4 : N) :
  (∀ seed l, shuffle seed l ≡ₚ l) →
  get_blocks rank fs project_dir n_samples block_size validate = Ok (fs', blocks) →
  (0 <= fraction)%Q →
  1 ≤ W → 0 ≤ r1 < W → 0 ≤ r2 < W → r1 ≠ r2 →
  ∃ rb1 rb2 s1 s2,
    get_blocks_by_rank blocks r1 W = Ok rb1 ∧
    get_blocks_by_rank blocks r2 W = Ok rb2 ∧
    get_sampled_blocks_by_rank shuffle rb1 (Some fraction) seed1 seed2 = Ok s1 ∧
    get_sampled_blocks_by_rank shuffle rb2 (Some fraction) seed3 seed4 = Ok s2 ∧
    (∀ b, Some b ∈ RankBlocks.existing s1 → Some b ∉ RankBlocks.existing s2) ∧
    (∀ b, Some b ∈ RankBlocks.missing s1 → Some b ∉ RankBlocks.missing s2) ∧
    (∀ b, Some b ∈ RankBlocks.existing s1 → Some b ∉ RankBlocks.missing s2) ∧
    RankBlocks.n_existing_world s1 = Z.of_nat (length (Blocks.existing blocks)) ∧
    RankBlocks.n_missing_world s1 = Z.of_nat (length (Blocks.missing blocks)).
Proof.
  intros Hperm Hget Hf HW Hr1 Hr2 Hne.
  apply get_blocks_inv in Hget as (bl & Hbl & ->).
  pose proof (all_blocks_NoDup _ _ _ _ Hbl) as Hnd.
  set (ex := filter (λ b, os_path_exists fs' (path b)) bl).
  set (mi := filter (λ b, ¬ os_path_exists fs' (path b)) bl).
  assert (∀ seed l, ∃ out,
    sample_blocks shuffle (Some fraction) seed l = Ok out ∧
    ∀ b, Some b ∈ out → Some b ∈ l) as Hsample.
  { intros seed l.
    destruct (sample_blocks_ok shuffle Hperm fraction seed l Hf)
      as (Hout & _ & _ & _).
    eexists. split; [done|].
    intros b [Hb|Hb]%elem_of_app.
    - apply (subseteq_take _ _ (Some b)) in Hb. rewrite Hperm in Hb.
      by apply list_elem_of_filter in Hb as [_ ?].
    - by apply elem_of_replicate in Hb as [? _]. }
  assert (∀ (l : list block) r b, Some b ∈ shard_of l r W → b ∈ l) as Hshard.
  { intros l r b (i & Hi & _)%list_elem_of_fmap.
    by eapply list_elem_of_lookup_2. }
  destruct (rank_blocks_ok ex r1 W) as (? & _ & He1 & _); [lia..|].
  destruct (rank_blocks_ok mi r1 W) as (? & _ & Hm1 & _); [lia..|].
  destruct (rank_blocks_ok ex r2 W) as (? & _ & He2 & _); [lia..|].
  destruct (rank_blocks_ok mi r2 W) as (? & _ & Hm2 & _); [lia..|].
  destruct (Hsample seed1 (shard_of ex r1 W)) as (e1 & Hs1 & Hin1).
  destruct (Hsample seed2 (shard_of mi r1 W)) as (m1 & Hs2 & Hin2).
  destruct (Hsample seed3 (shard_of ex r2 W)) as (e2 & Hs3 & Hin3).
  destruct (Hsample seed4 (shard_of mi r2 W)) as (m2 & Hs4 & Hin4).
  unfold get_blocks_by_rank. cbn [Blocks.existing Blocks.missing collect].
  fold ex mi. rewrite He1, Hm1, He2, Hm2. simpl.
  do 2 eexists.
  exists {| RankBlocks.n_existing_world := Z.of_nat (length ex);
            RankBlocks.n_missing_world := Z.of_nat (length mi);
            RankBlocks.existing := e1; RankBlocks.missing := m1 |},
         {| RankBlocks.n_existing_world := Z.of_nat (length ex);
            RankBlocks.n_missing_world := Z.of_nat (length mi);
            RankBlocks.existing := e2; RankBlocks.missing := m2 |}.
  split_and!; [done|done| | | | | |done|done].
  - unfold get_sampled_blocks_by_rank.
    cbn [RankBlocks.existing RankBlocks.missing]. by rewrite Hs1, Hs2.
  - unfold get_sampled_blocks_by_rank.
    cbn [RankBlocks.existing RankBlocks.missing]. by rewrite Hs3, Hs4.
  - cbn [RankBlocks.existing]. intros b Hb1%Hin1 Hb2%Hin3.
    destruct (shard_sharded ex W HW) as [_ _ _ _ Hdis].
    apply Hne, (Hdis (NoDup_filter _ _ Hnd) r1 r2 b); done.
  - cbn [RankBlocks.missing]. intros b Hb1%Hin2 Hb2%Hin4.
    destruct (shard_sharded mi W HW) as [_ _ _ _ Hdis].
    apply Hne, (Hdis (NoDup_filter _ _ Hnd) r1 r2 b); done.
  - cbn [RankBlocks.existing RankBlocks.missing].
    intros b Hb1%Hin1%Hshard Hb2%Hin4%Hshard.
    apply list_elem_of_filter in Hb1 as [Hex _].
    by apply list_elem_of_filter in Hb2 as [Hno _].
Qed.

Lemma sampled_ranks_disjoint_witness :
  ∃ rb1 rb2 s1 s2,
    get_blocks_by_rank
      {| Blocks.existing := [Block (0, 100) "proj/0000-0100.hdf5"];
         Blocks.missing := [Block (100, 200) "proj/0100-0200.hdf5";
                            Block (200, 250) "proj/0200-0250.hdf5"] |} 0 2 = Ok rb1 ∧
    get_blocks_by_rank
      {| Blocks.existing := [Block (0, 100) "proj/0000-0100.hdf5"];
         Blocks.missing := [Block (100, 200) "proj/0100-0200.hdf5";
                            Block (200, 250) "proj/0200-0250.hdf5"] |} 1 2 = Ok rb2 ∧
    get_sampled_blocks_by_rank (λ _ l, reverse l) rb1 (Some (1#2)%Q) 1 2 = Ok s1 ∧
    get_sampled_blocks_by_rank (λ _ l, reverse l) rb2 (Some (1#2)%Q) 3 4 = Ok s2 ∧
    (∀ b, Some b ∈ RankBlocks.existing s1 → Some b ∉ RankBlocks.existing s2) ∧
    (∀ b, Some b ∈ RankBlocks.missing s1 → Some b ∉ RankBlocks.missing s2) ∧
    (∀ b, Some b ∈ RankBlocks.existing s1 → Some b ∉ RankBlocks.missing s2) ∧
    RankBlocks.n_existing_world s1 = Z.of_nat (length [Block (0, 100) "proj/0000-0100.hdf5"]) ∧
    RankBlocks.n_missing_world s1 =
      Z.of_nat (length [Block (100, 200) "proj/0100-0200.hdf5";
                        Block (200, 250) "proj/0200-0250.hdf5"]).
Proof.
  apply (sampled_ranks_disjoint (λ _ l, reverse l) 0 some_dir
    {[ "proj/0000-0100.hdf5"%string := Hdf5 () ]} "proj" 250 100 None
    {| Blocks.existing := [Block (0, 100) "proj/0000-0100.hdf5"];
       Blocks.missing := [Block (100, 200) "proj/0100-0200.hdf5";
                          Block (200, 250) "proj/0200-0250.hdf5"] |}
    (1#2)%Q 2 0 1 1 2 3 4).
  - intros _ l. apply reverse_Permutation.
  - by vm_compute.
  - unfold Qle. simpl. lia.
  - lia.
  - lia.
  - lia.
  - lia.
Defined.
